(** * Theron: mailboxes, block pools and the framework send path

    A shallow embedding of three pieces of the Theron actor library:

    - [Theron::Detail::Pool] (Detail/Allocators/Pool.h), the bounded free
      list of memory blocks that is threaded through the blocks themselves;
    - [Theron::Detail::Mailbox] (Detail/Mailboxes/Mailbox.h), the per-actor
      message queue with its message count, actor binding and pin count;
    - [Theron::Framework] (Framework.h): the [Parameters] record and the
      [Send] member function.

    Pointers and [uint32_t] values are integers of [Z]; the null pointer is
    [0] and arithmetic on [uint32_t] wraps modulo [2^32]. The memory of the
    blocks is addressed by byte. *)

From stdpp Require Import base option list gmap strings.
From Stdlib Require Import ZArith Lia.

Local Open Scope Z_scope.

(** ** Machine integers *)

Definition UINT32_MODULUS : Z := 2 ^ 32.

(** The value a [uint32_t] holds after an arithmetic operation. *)
Definition wrap32 (z : Z) : Z := z mod UINT32_MODULUS.

(** ** Outcomes of a call *)

(** A call either returns, or stops at a failed assertion, or reads a node
    of which some byte has not been written by an earlier operation, or is
    still looping when the fuel given to the model of its loop is used
    up. *)
Inductive result (A : Type) : Type :=
| Ok (a : A)
| AssertionFailure
| InvalidRead
| OutOfFuel.

Arguments Ok {A} a.
Arguments AssertionFailure {A}.
Arguments InvalidRead {A}.
Arguments OutOfFuel {A}.

#[global] Instance result_bind : MBind result := fun A B k r =>
  match r with
  | Ok a => k a
  | AssertionFailure => AssertionFailure
  | InvalidRead => InvalidRead
  | OutOfFuel => OutOfFuel
  end.

(** Modelled from the spec: the macro [THERON_ASSERT] (Theron/Assert.h is
    not among the sources). The spec speaks of operations that "assert"
    their precondition and that are "permitted only when" it holds: a call
    whose assertion fails does not go on. *)
Definition THERON_ASSERT (c : bool) : result unit :=
  if c then Ok tt else AssertionFailure.

(** ** Memory *)

(** The size of a pointer, and with it of a [Node], which holds one pointer
    and nothing else, depends on the data model the library is built for. *)
Inductive DataModel : Type :=
| ILP32
| LP64.

Existing Class DataModel.

(** The size of a pointer to a [Node], in bytes. *)
Definition POINTER_BYTES `{dm : DataModel} : nat :=
  match dm with
  | ILP32 => 4
  | LP64 => 8
  end.

(** Byte-addressed memory: the bytes written so far, by address. A byte is
    an integer below 256. A pointer is stored in [POINTER_BYTES] successive
    bytes, the least significant byte first. A write always succeeds: the
    memory of a block that is handed to the pool is taken to be there. A
    read of a byte that has not been written has no value here. *)
Module Memory.

Fixpoint load_bytes (m : gmap Z Z) (a : Z) (n : nat) : option (list Z) :=
  match n with
  | O => Some []
  | S n' => b ← m !! a; bs ← load_bytes m (a + 1) n'; Some (b :: bs)
  end.

Fixpoint store_bytes (m : gmap Z Z) (a : Z) (bs : list Z) : gmap Z Z :=
  match bs with
  | [] => m
  | b :: bs' => store_bytes (<[a := b]> m) (a + 1) bs'
  end.

(** The [n] bytes of [v], the least significant first. *)
Fixpoint bytes_of (n : nat) (v : Z) : list Z :=
  match n with
  | O => []
  | S n' => v mod 256 :: bytes_of n' (v / 256)
  end.

Fixpoint value_of (bs : list Z) : Z :=
  match bs with
  | [] => 0
  | b :: bs' => b + 256 * value_of bs'
  end.

Section Pointers.

Context `{dm : DataModel}.

(** The pointer stored at address [a], when all its bytes have been
    written. *)
Definition load_pointer (m : gmap Z Z) (a : Z) : option Z :=
  value_of <$> load_bytes m a POINTER_BYTES.

Definition store_pointer (m : gmap Z Z) (a v : Z) : gmap Z Z :=
  store_bytes m a (bytes_of POINTER_BYTES v).

(** The values a pointer can hold. *)
Definition is_pointer (v : Z) : bool :=
  (0 <=? v) && (v <? 256 ^ Z.of_nat POINTER_BYTES).

(** The pointers stored at [a1] and at [a2] share no byte. *)
Definition apart (a1 a2 : Z) : bool :=
  (a1 + Z.of_nat POINTER_BYTES <=? a2) || (a2 + Z.of_nat POINTER_BYTES <=? a1).

(** The byte at address [x] is none of the bytes of the pointer stored at
    [a]. *)
Definition outside (x a : Z) : Prop :=
  x < a \/ a + Z.of_nat POINTER_BYTES <= x.

End Pointers.

End Memory.

(** ** Pool: a list of free memory blocks *)

Module Pool.

(** [static const uint32_t MAX_BLOCKS = 16] *)
Definition MAX_BLOCKS : Z := 16.

(** A pointer to a [Node]: the dummy head node inside the pool object, or
    the node created in place at the start of a block. *)
Inductive NodeRef : Type :=
| HeadNode
| BlockNode (address : Z).

(** The pool object together with the memory of the blocks, in which the
    nodes are created in place: the node of a block is the pointer [mNext]
    stored at the address of the block. [mHead_mNext] is [mHead.mNext]. *)
Record t : Type := mk {
  memory : gmap Z Z;
  mHead_mNext : Z;
  mBlockCount : Z
}.

(** [Pool::Pool()] *)
Definition new : t :=
  {| memory := ∅; mHead_mNext := 0; mBlockCount := 0 |}.

Definition set_mBlockCount (c : Z) (p : t) : t :=
  {| memory := memory p; mHead_mNext := mHead_mNext p; mBlockCount := c |}.

(** [Pool::Empty] *)
Definition Empty (p : t) : result bool :=
  THERON_ASSERT
    (((mBlockCount p =? 0) && (mHead_mNext p =? 0))
     || (negb (mBlockCount p =? 0) && negb (mHead_mNext p =? 0))) ;;
  Ok (mBlockCount p =? 0).

(** The test of the search loop, [(uintptr_t(node) & alignmentMask) == 0]:
    "this is THERON_ALIGNED with the alignment mask calculated outside the
    loop". *)
Definition aligned_under_mask (alignmentMask node : Z) : bool :=
  Z.land node alignmentMask =? 0.

(** [const uint32_t alignmentMask(alignment - 1)] *)
Definition mask_of (alignment : Z) : Z := wrap32 (alignment - 1).

(** The alignment test of [FetchAligned] for one node: the test above under
    the mask of [alignment]. *)
Definition THERON_ALIGNED (node alignment : Z) : bool :=
  aligned_under_mask (mask_of alignment) node.

Inductive Op : Type :=
| OpAdd (memory : Z)
| OpFetch
| OpFetchAligned (alignment : Z).

(** The value a call returns: the [bool] of [Add], or the pointer of
    [Fetch] and [FetchAligned]. *)
Inductive Ret : Type :=
| RetAdd (accepted : bool)
| RetPointer (ptr : Z).

Section Operations.

Context `{dm : DataModel}.

(** [node->mNext], read. *)
Definition get_mNext (node : Z) (p : t) : result Z :=
  match Memory.load_pointer (memory p) node with
  | Some next => Ok next
  | None => InvalidRead
  end.

(** [previous->mNext = next] *)
Definition set_mNext (previous : NodeRef) (next : Z) (p : t) : t :=
  match previous with
  | HeadNode =>
      {| memory := memory p; mHead_mNext := next; mBlockCount := mBlockCount p |}
  | BlockNode a =>
      {| memory := Memory.store_pointer (memory p) a next;
         mHead_mNext := mHead_mNext p;
         mBlockCount := mBlockCount p |}
  end.

(** [Pool::Add] *)
Definition Add (memory : Z) (p : t) : result (bool * t) :=
  THERON_ASSERT (negb (memory =? 0)) ;;
  let node := memory in
  if mBlockCount p <? MAX_BLOCKS then
    let p1 := set_mNext (BlockNode node) (mHead_mNext p) p in
    let p2 := set_mNext HeadNode node p1 in
    let p3 := set_mBlockCount (wrap32 (mBlockCount p2 + 1)) p2 in
    Ok (true, p3)
  else
    Ok (false, p).

(** The [while (node)] loop of [Pool::FetchAligned]; each iteration uses
    one unit of fuel. *)
Fixpoint FetchAligned_loop (fuel : nat) (alignmentMask : Z)
    (previous : NodeRef) (node : Z) (p : t) : result (Z * t) :=
  match fuel with
  | O => OutOfFuel
  | S fuel' =>
      if node =? 0 then Ok (0, p)
      else
        next ← get_mNext node p ;
        if aligned_under_mask alignmentMask node then
          let p1 := set_mNext previous next p in
          let p2 := set_mBlockCount (wrap32 (mBlockCount p1 - 1)) p1 in
          Ok (node, p2)
        else
          FetchAligned_loop fuel' alignmentMask (BlockNode node) next p
  end.

(** [Pool::FetchAligned] *)
Definition FetchAligned (fuel : nat) (alignment : Z) (p : t) : result (Z * t) :=
  let previous := HeadNode in
  let alignmentMask := mask_of alignment in
  let node := mHead_mNext p in
  FetchAligned_loop fuel alignmentMask previous node p.

(** [Pool::Fetch] *)
Definition Fetch (p : t) : result (Z * t) :=
  let node := mHead_mNext p in
  if negb (node =? 0) then
    next ← get_mNext node p ;
    let p1 := set_mNext HeadNode next p in
    let p2 := set_mBlockCount (wrap32 (mBlockCount p1 - 1)) p1 in
    Ok (node, p2)
  else
    Ok (0, p).

(** *** Sequences of operations *)

(** One operation; the value it returns is dropped. *)
Definition step (fuel : nat) (op : Op) (p : t) : result t :=
  match op with
  | OpAdd memory => r ← Add memory p ; Ok (snd r)
  | OpFetch => r ← Fetch p ; Ok (snd r)
  | OpFetchAligned alignment => r ← FetchAligned fuel alignment p ; Ok (snd r)
  end.

Fixpoint run (fuel : nat) (ops : list Op) (p : t) : result t :=
  match ops with
  | [] => Ok p
  | op :: rest => p' ← step fuel op p ; run fuel rest p'
  end.



(** *** The list of blocks a pool holds *)

(** [chain m first l last]: following [mNext] from [first] visits the
    nodes of [l], none of them null, and arrives at [last]. *)
Fixpoint chain (m : gmap Z Z) (first : Z) (l : list Z) (last : Z) : Prop :=
  match l with
  | [] => first = last
  | b :: l' =>
      first = b /\ b <> 0
      /\ exists next, Memory.load_pointer m b = Some next /\ chain m next l' last
  end.

(** A block: a pointer that is not null. *)
Definition is_block (b : Z) : bool :=
  negb (b =? 0) && Memory.is_pointer b.

(** No two of the blocks have nodes that share a byte. *)
Fixpoint separated (l : list Z) : bool :=
  match l with
  | [] => true
  | b :: l' => forallb (Memory.apart b) l' && separated l'
  end.

(** The pool [p] holds exactly the blocks [l], first block first: the
    list from [mHead.mNext] ends in null, the nodes of the blocks lie apart
    in memory, and the stored count is the length of the list. *)
Record holds (p : t) (l : list Z) : Prop := {
  holds_chain : chain (memory p) (mHead_mNext p) l 0;
  holds_separated : separated l = true;
  holds_blocks : forallb is_block l = true;
  holds_count : mBlockCount p = Z.of_nat (length l);
  holds_bound : (length l <= 16)%nat
}.

End Operations.

(** The node the search loop keeps in [previous] once it has gone past
    the blocks [passed]: the last of them, or the head node. *)
Definition previous_of (passed : list Z) : NodeRef :=
  match last passed with
  | None => HeadNode
  | Some a => BlockNode a
  end.

(** *** The operations as the specification words them *)

(** "add(block): prepend; reject (return false) if already at capacity" *)
Definition spec_add (block : Z) (l : list Z) : bool * list Z :=
  if (length l <? 16)%nat then (true, block :: l) else (false, l).

(** "fetch(): pop head" *)
Definition spec_fetch (l : list Z) : option Z * list Z :=
  match l with
  | [] => (None, [])
  | b :: l' => (Some b, l')
  end.

(** "fetch_aligned(align): linear scan for the first block whose address
    satisfies alignment; unlink and return; returns None if none match",
    with the test of the code for "satisfies". *)
Fixpoint spec_fetch_aligned (align : Z) (l : list Z) : option Z * list Z :=
  match l with
  | [] => (None, [])
  | b :: l' =>
      if THERON_ALIGNED b align then (Some b, l')
      else let '(r, l'') := spec_fetch_aligned align l' in (r, b :: l'')
  end.

Definition spec_step (op : Op) (l : list Z) : list Z :=
  match op with
  | OpAdd block => snd (spec_add block l)
  | OpFetch => snd (spec_fetch l)
  | OpFetchAligned align => snd (spec_fetch_aligned align l)
  end.


(** A pointer result as an optional block: null is [None]. *)
Definition block_of_pointer (ptr : Z) : option Z :=
  if ptr =? 0 then None else Some ptr.




(** The blocks that the calls of [Add] in [ops] were given and took (the
    call returned true), in order, read off the returned values. *)
Fixpoint accepted (ops : list Op) (rets : list Ret) : list Z :=
  match ops, rets with
  | OpAdd block :: ops', RetAdd true :: rets' => block :: accepted ops' rets'
  | _ :: ops', _ :: rets' => accepted ops' rets'
  | _, _ => []
  end.


Section Contract.

Context `{dm : DataModel}.

(** The caller of [Add] hands over a block of its own: the pointer is not
    null (the assertion of [Add]) and the node that [Add] will write at its
    start shares no byte with the node of a block the pool holds; so the
    block is not one the pool holds already, nor one that overlaps the
    start of such a block. *)
Definition may_add (block : Z) (l : list Z) : bool :=
  is_block block && forallb (Memory.apart block) l.

(** A sequence of operations in which every [Add] is given such a block,
    when started on a pool that holds [l]. *)
Fixpoint adds_own_blocks (ops : list Op) (l : list Z) : bool :=
  match ops with
  | [] => true
  | op :: rest =>
      match op with
      | OpAdd block => may_add block l
      | _ => true
      end && adds_own_blocks rest (spec_step op l)
  end.

End Contract.

(** The pool that [Add(4096)] and then [Add(4104)] make of a fresh pool on
    a 64-bit build: it holds block 4104, then block 4096. *)
Definition example_pool : t :=
  {| memory :=
       Memory.store_pointer (dm := LP64)
         (Memory.store_pointer (dm := LP64) ∅ 4096 0) 4104 4096;
     mHead_mNext := 4104;
     mBlockCount := 2 |}.

End Pool.

(** ** Mailbox: the message queue of one address *)

(** Modelled from the spec: the class template [Queue] behind
    [typedef Queue<IMessage> MessageQueue] (its header is not among the
    sources). The spec gives the mailbox a "queue: FIFO<Message*>
    (intrusive, unbounded)": push "appends", front "peeks head; returns null
    if empty", pop "removes and returns head" and "returns null if empty".
    A queue is the list of the message pointers it holds, head first. *)
Module Queue.

Definition t : Type := list Z.

(** Modelled from the spec: the queue of a mailbox as constructed, which
    holds no message. *)
Definition new : t := [].

(** Modelled from the spec: "empty()", an observation. *)
Definition Empty (q : t) : bool :=
  match q with
  | [] => true
  | _ :: _ => false
  end.

(** Modelled from the spec: push "appends" the message. *)
Definition Push (item : Z) (q : t) : t := q ++ [item].

(** Modelled from the spec: front "peeks head; returns null if empty". *)
Definition Front (q : t) : Z :=
  match q with
  | [] => 0
  | item :: _ => item
  end.

(** Modelled from the spec: pop "removes and returns head" and "returns
    null if empty". *)
Definition Pop (q : t) : Z * t :=
  match q with
  | [] => (0, [])
  | item :: q' => (item, q')
  end.

End Queue.

Module Mailbox.

(** The data members of [Mailbox]; the spin lock is left out, the
    operations below are the bodies that run while it is held. *)
Record t : Type := mk {
  mName : string;
  mQueue : Queue.t;
  mMessageCount : Z;
  mActor : Z;
  mPinCount : Z
}.

(** [Mailbox::Mailbox()] *)
Definition new : t :=
  {| mName := EmptyString; mQueue := Queue.new; mMessageCount := 0; mActor := 0;
     mPinCount := 0 |}.

Definition GetName (mb : t) : string := mName mb.

Definition SetName (name : string) (mb : t) : t :=
  {| mName := name; mQueue := mQueue mb; mMessageCount := mMessageCount mb;
     mActor := mActor mb; mPinCount := mPinCount mb |}.

Definition Empty (mb : t) : bool := Queue.Empty (mQueue mb).

(** [mQueue.Push(message); ++mMessageCount;] *)
Definition Push (message : Z) (mb : t) : t :=
  {| mName := mName mb;
     mQueue := Queue.Push message (mQueue mb);
     mMessageCount := wrap32 (mMessageCount mb + 1);
     mActor := mActor mb; mPinCount := mPinCount mb |}.

Definition Front (mb : t) : Z := Queue.Front (mQueue mb).

(** [--mMessageCount; return mQueue.Pop();] *)
Definition Pop (mb : t) : Z * t :=
  let count := wrap32 (mMessageCount mb - 1) in
  let '(message, q) := Queue.Pop (mQueue mb) in
  (message,
   {| mName := mName mb; mQueue := q; mMessageCount := count;
      mActor := mActor mb; mPinCount := mPinCount mb |}).

Definition Count (mb : t) : Z := mMessageCount mb.

Definition set_mActor (actor : Z) (mb : t) : t :=
  {| mName := mName mb; mQueue := mQueue mb;
     mMessageCount := mMessageCount mb; mActor := actor;
     mPinCount := mPinCount mb |}.

Definition set_mPinCount (c : Z) (mb : t) : t :=
  {| mName := mName mb; mQueue := mQueue mb;
     mMessageCount := mMessageCount mb; mActor := mActor mb;
     mPinCount := c |}.

(** [Mailbox::RegisterActor] *)
Definition RegisterActor (actor : Z) (mb : t) : result t :=
  THERON_ASSERT (mPinCount mb =? 0) ;;
  THERON_ASSERT (mActor mb =? 0) ;;
  THERON_ASSERT (negb (actor =? 0)) ;;
  Ok (set_mActor actor mb).

(** [Mailbox::DeregisterActor] *)
Definition DeregisterActor (mb : t) : result t :=
  THERON_ASSERT (mPinCount mb =? 0) ;;
  THERON_ASSERT (negb (mActor mb =? 0)) ;;
  Ok (set_mActor 0 mb).

Definition GetActor (mb : t) : Z := mActor mb.

Definition Pin (mb : t) : t := set_mPinCount (wrap32 (mPinCount mb + 1)) mb.

Definition Unpin (mb : t) : result t :=
  THERON_ASSERT (0 <? mPinCount mb) ;;
  Ok (set_mPinCount (wrap32 (mPinCount mb - 1)) mb).

Definition IsPinned (mb : t) : bool := 0 <? mPinCount mb.

(** *** Sequences of pushes and pops *)

Definition push_all (messages : list Z) (mb : t) : t :=
  foldl (fun m message => Push message m) mb messages.

(** [n] calls of [Pop]; the pointers they return, first call first. *)
Fixpoint pop_n (n : nat) (mb : t) : list Z * t :=
  match n with
  | O => ([], mb)
  | S n' =>
      let '(message, mb1) := Pop mb in
      let '(rest, mb2) := pop_n n' mb1 in
      (message :: rest, mb2)
  end.

Inductive Op : Type :=
| OpPush (message : Z)
| OpPop.

(** The messages a sequence of operations pushes, in order. *)
Fixpoint pushed (ops : list Op) : list Z :=
  match ops with
  | [] => []
  | OpPush message :: rest => message :: pushed rest
  | OpPop :: rest => pushed rest
  end.

(** Runs a sequence of operations; returns the messages taken out by the
    calls of [Pop] on a mailbox that was not empty, in order. *)
Fixpoint run (ops : list Op) (mb : t) : list Z * t :=
  match ops with
  | [] => ([], mb)
  | OpPush message :: rest => run rest (Push message mb)
  | OpPop :: rest =>
      let was_empty := Empty mb in
      let '(message, mb1) := Pop mb in
      let '(out, mb2) := run rest mb1 in
      (if was_empty then out else message :: out, mb2)
  end.

(** Invariant 1 of the data model: [count == 0 ⇔ queue.empty()]. *)
Definition count_zero_iff_empty (mb : t) : Prop :=
  mMessageCount mb = 0 <-> Empty mb = true.

(** The count mirrors the queue size. *)
Definition count_is_size (mb : t) : Prop :=
  mMessageCount mb = Z.of_nat (length (mQueue mb)).

(** *** Sequences of calls *)

(** A call of one of the member functions that change the mailbox. *)
Inductive Call : Type :=
| CallSetName (name : string)
| CallPush (message : Z)
| CallPop
| CallRegisterActor (actor : Z)
| CallDeregisterActor
| CallPin
| CallUnpin.

Definition call (c : Call) (mb : t) : result t :=
  match c with
  | CallSetName name => Ok (SetName name mb)
  | CallPush message => Ok (Push message mb)
  | CallPop => Ok (snd (Pop mb))
  | CallRegisterActor actor => RegisterActor actor mb
  | CallDeregisterActor => DeregisterActor mb
  | CallPin => Ok (Pin mb)
  | CallUnpin => Unpin mb
  end.

Fixpoint calls (cs : list Call) (mb : t) : result t :=
  match cs with
  | [] => Ok mb
  | c :: rest => mb' ← call c mb; calls rest mb'
  end.

(** How many of the calls are [Push], [Pop], [Pin], [Unpin]. *)
Fixpoint pushes (cs : list Call) : Z :=
  match cs with
  | [] => 0
  | CallPush _ :: rest => 1 + pushes rest
  | _ :: rest => pushes rest
  end.

Fixpoint pops (cs : list Call) : Z :=
  match cs with
  | [] => 0
  | CallPop :: rest => 1 + pops rest
  | _ :: rest => pops rest
  end.

Fixpoint pins (cs : list Call) : Z :=
  match cs with
  | [] => 0
  | CallPin :: rest => 1 + pins rest
  | _ :: rest => pins rest
  end.

Fixpoint unpins (cs : list Call) : Z :=
  match cs with
  | [] => 0
  | CallUnpin :: rest => 1 + unpins rest
  | _ :: rest => unpins rest
  end.

(** Every [Pop] among the calls is made on a mailbox that is not empty. *)
Fixpoint pops_when_not_empty (cs : list Call) (mb : t) : bool :=
  match cs with
  | [] => true
  | c :: rest =>
      match c with
      | CallPop => negb (Empty mb)
      | _ => true
      end
      && match call c mb with
         | Ok mb' => pops_when_not_empty rest mb'
         | _ => true
         end
  end.

(** The mailbox is pinned when each of the calls is made. *)
Fixpoint pinned_at_each (cs : list Call) (mb : t) : bool :=
  match cs with
  | [] => true
  | c :: rest =>
      IsPinned mb
      && match call c mb with
         | Ok mb' => pinned_at_each rest mb'
         | _ => true
         end
  end.

End Mailbox.

(** ** Framework *)

Module Framework.

(** [enum YieldStrategy] *)
Inductive YieldStrategy : Type :=
| YIELD_STRATEGY_POLITE
| YIELD_STRATEGY_STRONG
| YIELD_STRATEGY_AGGRESSIVE.

(** [struct Framework::Parameters] *)
Record Parameters : Type := mkParameters {
  mThreadCount : Z;
  mNodeMask : Z;
  mProcessorMask : Z;
  mYieldStrategy : YieldStrategy
}.

(** The constructor of [Parameters]. Each argument has a default value
    in the declaration; an argument the caller leaves out is [None]. *)
Definition Parameters_ctor (threadCount nodeMask processorMask : option Z)
    (yieldStrategy : option YieldStrategy) : Parameters :=
  {| mThreadCount := default 16 threadCount;
     mNodeMask := default 0x1 nodeMask;
     mProcessorMask := default 0xFFFFFFFF processorMask;
     mYieldStrategy := default YIELD_STRATEGY_POLITE yieldStrategy |}.

(** [Parameters()] *)
Definition Parameters_default : Parameters :=
  Parameters_ctor None None None None.

(** What the members reached through [mProcessorContext] hold: the
    mailboxes of the directory by index, the shared work queue of ready
    mailboxes, the messages the fallback handlers have been run on (oldest
    first) and the message allocator. *)
Record Context (Allocator : Type) : Type := mkContext {
  mMailboxes : gmap Z Mailbox.t;
  mWorkQueue : list Z;
  mFallbackHandled : list Z;
  mMessageAllocator : Allocator
}.
Arguments mkContext {Allocator}.
Arguments mMailboxes {Allocator}.
Arguments mWorkQueue {Allocator}.
Arguments mFallbackHandled {Allocator}.
Arguments mMessageAllocator {Allocator}.

Definition set_mMessageAllocator {Allocator : Type} (a : Allocator)
    (c : Context Allocator) : Context Allocator :=
  {| mMailboxes := mMailboxes c; mWorkQueue := mWorkQueue c;
     mFallbackHandled := mFallbackHandled c; mMessageAllocator := a |}.

(** The code [Send] calls and that lives in other files:
    [Detail::MessageCreator::Create], which returns a message pointer
    (null when the allocation fails) and may change the allocator, and
    [Detail::MessageSender::Send], which is given the end point, the
    processor context, the framework index, the message and the
    address. *)
Class Collaborators : Type := {
  ValueType : Type;
  Address : Type;
  Allocator : Type;
  MessageCreator_Create : Allocator -> ValueType -> Address -> Z * Allocator;
  MessageSender_Send :
    Z -> Context Allocator -> Z -> Z -> Address -> bool * Context Allocator
}.

Section Send.

Context `{C : Collaborators}.

Record t : Type := mk {
  mEndPoint : Z;
  mIndex : Z;
  mProcessorContext : Context Allocator
}.

(** [Framework::Send] *)
Definition Send (value : ValueType) (from address : Address) (fw : t)
    : bool * t :=
  let '(message, allocator) :=
    MessageCreator_Create (mMessageAllocator (mProcessorContext fw)) value from in
  let context := set_mMessageAllocator allocator (mProcessorContext fw) in
  if message =? 0 then
    (false,
     {| mEndPoint := mEndPoint fw; mIndex := mIndex fw;
        mProcessorContext := context |})
  else
    let '(sent, context') :=
      MessageSender_Send (mEndPoint fw) context (mIndex fw) message address in
    (sent,
     {| mEndPoint := mEndPoint fw; mIndex := mIndex fw;
        mProcessorContext := context' |}).

(** [Framework::FrameworkReceive] *)
Definition FrameworkReceive (message : Z) (address : Address) (fw : t)
    : bool * t :=
  let '(sent, context') :=
    MessageSender_Send (mEndPoint fw) (mProcessorContext fw) (mIndex fw)
      message address in
  (sent,
   {| mEndPoint := mEndPoint fw; mIndex := mIndex fw;
      mProcessorContext := context' |}).

End Send.

(** Collaborators for a framework whose allocator has run dry: [Create]
    returns null and counts the attempt; the sender, were it called,
    would run the fallback handlers on the message and report failure. *)
Definition exhausted_collaborators : Collaborators :=
  {| ValueType := Z;
     Address := Z;
     Allocator := nat;
     MessageCreator_Create := fun attempts _ _ => (0, S attempts);
     MessageSender_Send := fun _ context _ message _ =>
       (false,
        {| mMailboxes := mMailboxes context;
           mWorkQueue := mWorkQueue context;
           mFallbackHandled := mFallbackHandled context ++ [message];
           mMessageAllocator := mMessageAllocator context |}) |}.

(** A framework with index 1 and no end point, one mailbox at index 7,
    nothing queued, and that allocator. *)
Definition exhausted_framework : @t exhausted_collaborators :=
  {| mEndPoint := 0; mIndex := 1;
     mProcessorContext :=
       @mkContext (@Allocator exhausted_collaborators)
         {[7 := Mailbox.new]} [] [] 0%nat |}.

(** Collaborators for a framework whose allocator hands out the address it
    keeps and moves on by 64; the sender records the message as handled by
    the fallback handlers and reports failure. *)
Definition bump_collaborators : Collaborators :=
  {| ValueType := Z;
     Address := Z;
     Allocator := Z;
     MessageCreator_Create := fun next _ _ => (next, next + 64);
     MessageSender_Send := fun _ context _ message _ =>
       (false,
        {| mMailboxes := mMailboxes context;
           mWorkQueue := mWorkQueue context;
           mFallbackHandled := mFallbackHandled context ++ [message];
           mMessageAllocator := mMessageAllocator context |}) |}.

(** A framework with index 1 and no end point, no mailbox, nothing queued,
    and that allocator at address 4096. *)
Definition bump_framework : @t bump_collaborators :=
  {| mEndPoint := 0; mIndex := 1;
     mProcessorContext :=
       @mkContext (@Allocator bump_collaborators) ∅ [] [] 4096 |}.

End Framework.

(** * Properties *)

(** ** Machine integers *)

Lemma wrap32_small (z : Z) : 0 <= z < UINT32_MODULUS -> wrap32 z = z.
Proof. intros H. unfold wrap32. by apply Z.mod_small. Qed.

Lemma THERON_ASSERT_true (c : bool) : c = true -> THERON_ASSERT c = Ok tt.
Proof. by intros ->. Qed.

(** ** Memory *)

Lemma forallb_elem_of {A : Type} (f : A -> bool) (l : list A) :
  forallb f l = true <-> forall x, x ∈ l -> f x = true.
Proof.
  rewrite forallb_forall. split; intros H x Hx; apply H; by apply list_elem_of_In.
Qed.

Lemma store_bytes_lookup_outside (bs : list Z) :
  forall (m : gmap Z Z) (a x : Z),
    x < a \/ a + Z.of_nat (length bs) <= x ->
    Memory.store_bytes m a bs !! x = m !! x.
Proof.
  induction bs as [|b bs IH]; intros m a x Hx; simpl; [done|].
  rewrite IH by (simpl in Hx; lia).
  apply lookup_insert_ne. simpl in Hx. lia.
Qed.

Lemma load_bytes_ext (n : nat) :
  forall (m1 m2 : gmap Z Z) (a : Z),
    (forall x, a <= x < a + Z.of_nat n -> m1 !! x = m2 !! x) ->
    Memory.load_bytes m1 a n = Memory.load_bytes m2 a n.
Proof.
  induction n as [|n IH]; intros m1 m2 a Hext; simpl; [done|].
  rewrite (Hext a) by lia. rewrite (IH m1 m2 (a + 1)); [done|].
  intros x Hx. apply Hext. lia.
Qed.

Lemma load_store_bytes (bs : list Z) :
  forall (m : gmap Z Z) (a : Z),
    Memory.load_bytes (Memory.store_bytes m a bs) a (length bs) = Some bs.
Proof.
  induction bs as [|b bs IH]; intros m a; simpl; [done|].
  rewrite store_bytes_lookup_outside by lia.
  rewrite lookup_insert_eq. simpl. by rewrite IH.
Qed.

Lemma length_bytes_of (n : nat) : forall v : Z, length (Memory.bytes_of n v) = n.
Proof. induction n as [|n IH]; intros v; simpl; [done|]. by rewrite IH. Qed.

Lemma value_of_bytes_of (n : nat) :
  forall v : Z,
    0 <= v < 256 ^ Z.of_nat n -> Memory.value_of (Memory.bytes_of n v) = v.
Proof.
  induction n as [|n IH]; intros v Hv.
  - simpl in *. lia.
  - rewrite Nat2Z.inj_succ, Z.pow_succ_r in Hv by lia.
    simpl. rewrite IH.
    + pose proof (Z.div_mod v 256). lia.
    + split; [apply Z.div_pos; lia|apply Z.div_lt_upper_bound; lia].
Qed.

Lemma is_pointer_spec `{dm : DataModel} (v : Z) :
  Memory.is_pointer v = true <-> 0 <= v < 256 ^ Z.of_nat POINTER_BYTES.
Proof. unfold Memory.is_pointer. rewrite andb_true_iff, Z.leb_le, Z.ltb_lt. done. Qed.

Lemma is_pointer_null `{dm : DataModel} : Memory.is_pointer 0 = true.
Proof. by destruct dm. Qed.

Lemma apart_spec `{dm : DataModel} (a1 a2 : Z) :
  Memory.apart a1 a2 = true
  <-> a1 + Z.of_nat POINTER_BYTES <= a2 \/ a2 + Z.of_nat POINTER_BYTES <= a1.
Proof. unfold Memory.apart. rewrite orb_true_iff, !Z.leb_le. done. Qed.

Lemma apart_sym `{dm : DataModel} (a1 a2 : Z) :
  Memory.apart a1 a2 = Memory.apart a2 a1.
Proof. unfold Memory.apart. apply orb_comm. Qed.

Lemma load_store_pointer `{dm : DataModel} (m : gmap Z Z) (a v : Z) :
  Memory.is_pointer v = true ->
  Memory.load_pointer (Memory.store_pointer m a v) a = Some v.
Proof.
  intros Hv. apply is_pointer_spec in Hv.
  unfold Memory.load_pointer, Memory.store_pointer.
  rewrite <- (length_bytes_of POINTER_BYTES v) at 2.
  rewrite load_store_bytes. simpl. by rewrite value_of_bytes_of.
Qed.

Lemma load_store_pointer_apart `{dm : DataModel} (m : gmap Z Z) (a1 a2 v : Z) :
  Memory.apart a1 a2 = true ->
  Memory.load_pointer (Memory.store_pointer m a1 v) a2 = Memory.load_pointer m a2.
Proof.
  intros Hap. apply apart_spec in Hap.
  unfold Memory.load_pointer, Memory.store_pointer. f_equal.
  apply load_bytes_ext. intros x Hx.
  apply store_bytes_lookup_outside. rewrite length_bytes_of. lia.
Qed.

Lemma store_pointer_outside `{dm : DataModel} (m : gmap Z Z) (a v x : Z) :
  Memory.outside x a -> Memory.store_pointer m a v !! x = m !! x.
Proof.
  intros Hx. unfold Memory.store_pointer.
  apply store_bytes_lookup_outside. by rewrite length_bytes_of.
Qed.

(** ** Pool *)

(** *** Blocks that lie apart *)

Lemma is_block_spec `{dm : DataModel} (b : Z) :
  Pool.is_block b = true <-> b <> 0 /\ Memory.is_pointer b = true.
Proof. unfold Pool.is_block. by rewrite andb_true_iff, negb_true_iff, Z.eqb_neq. Qed.

Lemma separated_app `{dm : DataModel} (l1 l2 : list Z) :
  Pool.separated (l1 ++ l2) = true
  <-> Pool.separated l1 = true /\ Pool.separated l2 = true
      /\ forall x y, x ∈ l1 -> y ∈ l2 -> Memory.apart x y = true.
Proof.
  induction l1 as [|b l1 IH]; simpl.
  - split; [|by intros (_ & ? & _)]. intros H. repeat split; [done|].
    intros x y Hx. by apply elem_of_nil in Hx.
  - rewrite !andb_true_iff, forallb_app, andb_true_iff, IH, !forallb_elem_of.
    split.
    + intros ((H1 & H2) & H3 & H4 & H5). repeat split; try done.
      intros x y Hx Hy. apply elem_of_cons in Hx as [->|Hx]; [by apply H2|].
      by apply H5.
    + intros ((H1 & H2) & H3 & H4). repeat split; try done.
      * intros y Hy. apply H4; [by left|done].
      * intros x y Hx Hy. apply H4; [by right|done].
Qed.

Lemma separated_remove `{dm : DataModel} (pre : list Z) (b : Z) (rest : list Z) :
  Pool.separated (pre ++ b :: rest) = true -> Pool.separated (pre ++ rest) = true.
Proof.
  rewrite !separated_app. simpl. rewrite andb_true_iff.
  intros (H1 & (_ & H2) & H3). repeat split; [done|done|].
  intros x y Hx Hy. apply H3; [done|by right].
Qed.

Lemma forallb_remove {A : Type} (f : A -> bool) (pre : list A) (b : A)
    (rest : list A) :
  forallb f (pre ++ b :: rest) = true -> forallb f (pre ++ rest) = true.
Proof.
  rewrite !forallb_app. simpl. rewrite !andb_true_iff. by intros (? & _ & ?).
Qed.

(** *** Chains of nodes *)

Lemma chain_frame `{dm : DataModel} (m : gmap Z Z) (a v first : Z) (l : list Z)
    (last : Z) :
  (forall b, b ∈ l -> Memory.apart a b = true) ->
  Pool.chain m first l last ->
  Pool.chain (Memory.store_pointer m a v) first l last.
Proof.
  revert first. induction l as [|b l IH]; simpl; intros first Hap H; [done|].
  destruct H as (-> & Hb & next & Hm & Hc).
  repeat split; [done|]. exists next. split.
  - rewrite load_store_pointer_apart; [done|]. apply Hap. by left.
  - apply IH; [|done]. intros x Hx. apply Hap. by right.
Qed.

Lemma chain_app `{dm : DataModel} (m : gmap Z Z) (first : Z) (l1 l2 : list Z)
    (last : Z) :
  Pool.chain m first (l1 ++ l2) last <->
  exists mid, Pool.chain m first l1 mid /\ Pool.chain m mid l2 last.
Proof.
  revert first. induction l1 as [|b l1 IH]; simpl; intros first.
  - split.
    + intros H. by exists first.
    + by intros (mid & -> & H).
  - split.
    + intros (-> & Hb & next & Hm & Hc). apply IH in Hc as (mid & H1 & H2).
      exists mid. repeat split; [done| |done]. by exists next.
    + intros (mid & (-> & Hb & next & Hm & H1) & H2).
      repeat split; [done|]. exists next. split; [done|]. apply IH. by exists mid.
Qed.

Lemma chain_snoc `{dm : DataModel} (m : gmap Z Z) (first : Z) (l : list Z)
    (a last : Z) :
  Pool.chain m first (l ++ [a]) last <->
  Pool.chain m first l a /\ a <> 0 /\ Memory.load_pointer m a = Some last.
Proof.
  rewrite chain_app. simpl. split.
  - intros (mid & H1 & -> & Ha & next & Hm & ->). done.
  - intros (H1 & Ha & Hm). exists a. repeat split; [done|done|]. by exists last.
Qed.

(** The pointer a chain of blocks starts from is one a node can hold. *)
Lemma chain_first_pointer `{dm : DataModel} (m : gmap Z Z) (first : Z)
    (l : list Z) :
  Pool.chain m first l 0 -> forallb Pool.is_block l = true ->
  Memory.is_pointer first = true.
Proof.
  destruct l as [|b l]; simpl.
  - intros -> _. apply is_pointer_null.
  - intros (-> & _) H. apply andb_true_iff in H as [H _].
    by apply is_block_spec in H as [_ H].
Qed.




(** *** Add *)



(** *** Fetch *)


(** *** FetchAligned *)

Lemma previous_of_snoc (passed : list Z) (a : Z) :
  Pool.previous_of (passed ++ [a]) = Pool.BlockNode a.
Proof. unfold Pool.previous_of. by rewrite last_snoc. Qed.


(** Unlinking the node after [previous] keeps the blocks before and after
    it chained. *)
Lemma chain_unlink `{dm : DataModel} (p : Pool.t) (pre rest : list Z) (b next : Z) :
  Pool.chain (Pool.memory p) (Pool.mHead_mNext p) pre b ->
  Pool.chain (Pool.memory p) next rest 0 ->
  Pool.separated (pre ++ b :: rest) = true ->
  Memory.is_pointer next = true ->
  let p1 := Pool.set_mNext (Pool.previous_of pre) next p in
  Pool.chain (Pool.memory p1) (Pool.mHead_mNext p1) (pre ++ rest) 0.
Proof.
  intros Hpre Hrest Hsep Hnext. destruct pre as [|a pre _] using rev_ind.
  - simpl in *. done.
  - rewrite previous_of_snoc. simpl.
    apply chain_snoc in Hpre as (Hpre & Ha & Hm).
    apply separated_app in Hsep as (Hsep1 & _ & Hcross).
    apply separated_app in Hsep1 as (_ & _ & Hcross1).
    rewrite <- app_assoc. simpl. apply chain_app. exists a. split.
    + apply chain_frame; [|done]. intros x Hx. rewrite apart_sym.
      apply Hcross1; [done|by left].
    + simpl. repeat split; [done|]. exists next. split.
      * by apply load_store_pointer.
      * apply chain_frame; [|done]. intros x Hx.
        apply Hcross; [|by right]. apply elem_of_app. right. by left.
Qed.

Lemma FetchAligned_loop_holds `{dm : DataModel} (align : Z) (rest : list Z) :
  forall (pre : list Z) (fuel : nat) (node : Z) (p : Pool.t),
    Pool.chain (Pool.memory p) (Pool.mHead_mNext p) pre node ->
    Pool.chain (Pool.memory p) node rest 0 ->
    Pool.separated (pre ++ rest) = true ->
    forallb Pool.is_block (pre ++ rest) = true ->
    Pool.mBlockCount p = Z.of_nat (length (pre ++ rest)) ->
    (length (pre ++ rest) <= 16)%nat ->
    (length rest < fuel)%nat ->
    exists ptr p',
      Pool.FetchAligned_loop fuel (Pool.mask_of align) (Pool.previous_of pre) node p
        = Ok (ptr, p')
      /\ Pool.block_of_pointer ptr = fst (Pool.spec_fetch_aligned align rest)
      /\ Pool.holds p' (pre ++ snd (Pool.spec_fetch_aligned align rest))
      /\ (fst (Pool.spec_fetch_aligned align rest) = None -> p' = p).
Proof.
  induction rest as [|b rest IH];
    intros pre fuel node p Hpre Hrest Hsep Hbl Hn Hlen Hfuel.
  - simpl in Hrest. subst node. destruct fuel as [|fuel]; [simpl in Hfuel; lia|].
    simpl. exists 0, p. repeat split; try done.
    all: rewrite app_nil_r in *; done.
  - simpl in Hrest. destruct Hrest as (-> & Hb & next & Hm & Hrest).
    destruct fuel as [|fuel]; [simpl in Hfuel; lia|].
    simpl. rewrite (proj2 (Z.eqb_neq _ _) Hb).
    unfold Pool.get_mNext. rewrite Hm. simpl.
    change (Pool.aligned_under_mask (Pool.mask_of align) b)
      with (Pool.THERON_ALIGNED b align).
    destruct (Pool.THERON_ALIGNED b align) eqn:Hal.
    + simpl. eexists _, _. split; [reflexivity|]. split.
      { unfold Pool.block_of_pointer. by rewrite (proj2 (Z.eqb_neq _ _) Hb). }
      split; [|done]. split.
      * apply (chain_unlink p pre rest b next); [done|done|done|].
        apply (chain_first_pointer (Pool.memory p) _ rest); [done|].
        rewrite forallb_app in Hbl. simpl in Hbl.
        by apply andb_true_iff in Hbl as (_ & (_ & ?)%andb_true_iff).
      * by apply (separated_remove pre b rest).
      * by apply (forallb_remove _ pre b rest).
      * simpl. destruct (Pool.previous_of pre); simpl;
          rewrite Hn, length_app; simpl;
          rewrite length_app, wrap32_small in *; simpl in *;
          unfold UINT32_MODULUS; lia.
      * rewrite length_app in *. simpl in *. lia.
    + specialize (IH (pre ++ [b]) fuel next p).
      rewrite previous_of_snoc in IH. rewrite <- app_assoc in IH. simpl in IH.
      destruct IH as (ptr & p' & Hrun & Hptr & Hholds & Hsame).
      * apply chain_snoc. done.
      * done.
      * done.
      * done.
      * done.
      * done.
      * simpl in Hfuel. lia.
      * exists ptr, p'. split; [done|].
        destruct (Pool.spec_fetch_aligned align rest) as [r l']. simpl in *.
        rewrite <- app_assoc in Hholds. done.
Qed.

Lemma FetchAligned_holds `{dm : DataModel} (fuel : nat) (align : Z) (p : Pool.t)
    (l : list Z) :
  Pool.holds p l -> (length l < fuel)%nat ->
  exists ptr p',
    Pool.FetchAligned fuel align p = Ok (ptr, p')
    /\ Pool.block_of_pointer ptr = fst (Pool.spec_fetch_aligned align l)
    /\ Pool.holds p' (snd (Pool.spec_fetch_aligned align l))
    /\ (fst (Pool.spec_fetch_aligned align l) = None -> p' = p).
Proof.
  intros [Hc Hsep Hbl Hn Hlen] Hfuel. unfold Pool.FetchAligned.
  apply (FetchAligned_loop_holds align l [] fuel (Pool.mHead_mNext p) p); done.
Qed.

Lemma spec_fetch_aligned_found (align : Z) (pre : list Z) (b : Z) (post : list Z) :
  Forall (fun x => Pool.THERON_ALIGNED x align = false) pre ->
  Pool.THERON_ALIGNED b align = true ->
  Pool.spec_fetch_aligned align (pre ++ b :: post) = (Some b, pre ++ post).
Proof.
  intros Hpre Hb. induction Hpre as [|x pre Hx _ IH]; simpl.
  - by rewrite Hb.
  - by rewrite Hx, IH.
Qed.

Lemma spec_fetch_aligned_not_found (align : Z) (l : list Z) :
  Forall (fun x => Pool.THERON_ALIGNED x align = false) l ->
  Pool.spec_fetch_aligned align l = (None, l).
Proof.
  intros Hl. induction Hl as [|x l Hx _ IH]; simpl; [done|].
  by rewrite Hx, IH.
Qed.

(** For an alignment that is a power of two below [2^32], the test of the
    code is divisibility of the address by the alignment. *)
Lemma THERON_ALIGNED_power_of_two (node k : Z) :
  0 <= k < 32 ->
  Pool.THERON_ALIGNED node (2 ^ k) = true <-> node mod 2 ^ k = 0.
Proof.
  intros Hk. unfold Pool.THERON_ALIGNED, Pool.aligned_under_mask, Pool.mask_of.
  rewrite wrap32_small.
  - replace (2 ^ k - 1) with (Z.ones k) by (rewrite Z.ones_equiv; lia).
    rewrite Z.land_ones by lia. apply Z.eqb_eq.
  - unfold UINT32_MODULUS. split; [|].
    + assert (0 < 2 ^ k) by (apply Z.pow_pos_nonneg; lia). lia.
    + assert (2 ^ k < 2 ^ 32) by (apply Z.pow_lt_mono_r; lia). lia.
Qed.

(** *** Sequences of operations *)



Lemma adds_own_blocks_prefix `{dm : DataModel} (ops1 ops2 : list Pool.Op) :
  forall l : list Z,
    Pool.adds_own_blocks (ops1 ++ ops2) l = true ->
    Pool.adds_own_blocks ops1 l = true.
Proof.
  induction ops1 as [|op ops1 IH]; intros l H; simpl in *; [done|].
  apply andb_true_iff in H as [H1 H2]. rewrite H1. simpl. by apply IH.
Qed.




(** The pool that two calls of Add make of a fresh pool on a 64-bit build
    holds the two blocks. *)
Lemma example_pool_holds : Pool.holds (dm := LP64) Pool.example_pool [4104; 4096].
Proof.
  split; [|reflexivity|reflexivity|reflexivity|simpl; lia].
  simpl. repeat split; [lia|]. exists 4096. split; [by vm_compute|].
  repeat split; [lia|]. exists 0. split; [by vm_compute|reflexivity].
Qed.

Lemma example_pool_reached :
  Pool.run (dm := LP64) 17 [Pool.OpAdd 4096; Pool.OpAdd 4104] Pool.new
  = Ok Pool.example_pool.
Proof. by vm_compute. Qed.

(** Blocks four bytes apart have nodes that overlap on a 64-bit build and
    lie apart on a 32-bit build. On the former the contract of Add excludes
    the second block; were it added all the same, writing its node would
    replace the upper half of the node of the first, which then holds
    [4096 * 2^32] in place of null. *)
Lemma Pool_overlapping_nodes :
  Pool.may_add (dm := LP64) 4100 [4096] = false
  /\ Pool.may_add (dm := ILP32) 4100 [4096] = true
  /\ exists p : Pool.t,
       Pool.run (dm := LP64) 17 [Pool.OpAdd 4096; Pool.OpAdd 4100] Pool.new = Ok p
       /\ Memory.load_pointer (dm := LP64) (Pool.memory p) 4096
          = Some (4096 * 2 ^ 32).
Proof.
  split; [reflexivity|]. split; [reflexivity|].
  eexists. split; [vm_compute; reflexivity|]. by vm_compute.
Qed.




(** On a pool that holds the blocks [l], FetchAligned returns the first
    block of [l] that passes the alignment test of the code and leaves the
    other blocks in their order, or returns null and leaves the pool as it
    is when no block passes. *)
Lemma FetchAligned_first_passing `{dm : DataModel} (fuel : nat) (alignment : Z)
    (p : Pool.t) (l : list Z) :
  Pool.holds p l ->
  (length l < fuel)%nat ->
  (forall (pre : list Z) (b : Z) (post : list Z),
      l = pre ++ b :: post ->
      Forall (fun x => Pool.THERON_ALIGNED x alignment = false) pre ->
      Pool.THERON_ALIGNED b alignment = true ->
      exists p', Pool.FetchAligned fuel alignment p = Ok (b, p')
                 /\ b <> 0
                 /\ Pool.holds p' (pre ++ post))
  /\ (Forall (fun x => Pool.THERON_ALIGNED x alignment = false) l ->
      Pool.FetchAligned fuel alignment p = Ok (0, p)).
Proof.
  intros Hp Hfuel.
  destruct (FetchAligned_holds fuel alignment p l Hp Hfuel)
    as (ptr & p' & Hrun & Hptr & Hp' & Hsame).
  split.
  - intros pre b post -> Hpre Hb.
    rewrite (spec_fetch_aligned_found alignment pre b post Hpre Hb) in *.
    simpl in *. unfold Pool.block_of_pointer in Hptr.
    destruct (Z.eqb_spec ptr 0) as [|Hne]; [done|].
    injection Hptr as ->. by exists p'.
  - intros Hl. rewrite (spec_fetch_aligned_not_found alignment l Hl) in *.
    simpl in *. unfold Pool.block_of_pointer in Hptr.
    destruct (Z.eqb_spec ptr 0) as [->|]; [|done].
    by rewrite Hsame in Hrun.
Qed.

(** C5 (as amended): for an alignment that is a power of two below [2^32],
    on a pool that holds the blocks [l], FetchAligned returns (its loop
    needs one iteration more than there are blocks). When [b] is the first
    block of [l] whose address is a multiple of the alignment, with [pre]
    before it and [post] after it, the call returns [b] and the pool then
    holds [pre ++ post]: the other blocks in their prior order. When no
    block of [l] has such an address the call returns null and the pool is
    unchanged. *)
Theorem Pool_FetchAligned_first_multiple `{dm : DataModel} (fuel : nat) (k : Z)
    (p : Pool.t) (l : list Z) :
  Pool.holds p l ->
  (length l < fuel)%nat ->
  0 <= k < 32 ->
  (forall (pre : list Z) (b : Z) (post : list Z),
      l = pre ++ b :: post ->
      Forall (fun x => x mod 2 ^ k <> 0) pre ->
      b mod 2 ^ k = 0 ->
      exists p', Pool.FetchAligned fuel (2 ^ k) p = Ok (b, p')
                 /\ b <> 0
                 /\ Pool.holds p' (pre ++ post))
  /\ (Forall (fun x => x mod 2 ^ k <> 0) l ->
      Pool.FetchAligned fuel (2 ^ k) p = Ok (0, p)).
Proof.
  intros Hp Hfuel Hk.
  assert (forall xs : list Z,
             Forall (fun x => x mod 2 ^ k <> 0) xs ->
             Forall (fun x => Pool.THERON_ALIGNED x (2 ^ k) = false) xs) as Hnot.
  { intros xs Hxs. eapply Forall_impl; [exact Hxs|]. simpl. intros x Hx.
    apply not_true_is_false. by rewrite (THERON_ALIGNED_power_of_two x k Hk). }
  destruct (FetchAligned_first_passing fuel (2 ^ k) p l Hp Hfuel) as [Hfound Hnone].
  split.
  - intros pre b post Hl Hpre Hb. apply (Hfound pre b post Hl (Hnot pre Hpre)).
    by apply (THERON_ALIGNED_power_of_two b k Hk).
  - intros Hl. by apply Hnone, Hnot.
Qed.

Lemma Pool_FetchAligned_first_multiple_witness :
  Pool.holds (dm := LP64) Pool.example_pool [4104; 4096]
  /\ (length [4104%Z; 4096%Z] < 3)%nat
  /\ 0 <= 4 < 32
  /\ exists p', Pool.FetchAligned (dm := LP64) 3 (2 ^ 4) Pool.example_pool
                 = Ok (4096, p')
               /\ Pool.holds (dm := LP64) p' [4104].
Proof.
  split; [exact example_pool_holds|]. split; [simpl; lia|]. split; [lia|].
  destruct (Pool_FetchAligned_first_multiple (dm := LP64) 3 4 _ _ example_pool_holds)
    as [Hfound _]; [simpl; lia|lia|].
  destruct (Hfound [4104] 4096 []) as (p' & Hrun & _ & Hp');
    [reflexivity|by repeat constructor|reflexivity|].
  by exists p'.
Defined.

(** C5, the claim as first stated fails for an alignment that is not a
    power of two. The test of the code is [(address & (alignment - 1)) ==
    0]. The pool that Add(4112) and then Add(4104) make of a fresh pool
    holds 4104 and then 4112; 4104 is a multiple of 12 and comes first, yet
    FetchAligned(12) passes over it and returns 4112, which is not a
    multiple of 12. *)
Lemma Pool_FetchAligned_12_skips_a_multiple :
  Pool.run (dm := LP64) 17 [Pool.OpAdd 4112; Pool.OpAdd 4104] Pool.new
  = Ok (Pool.mk
          (Memory.store_pointer (dm := LP64)
             (Memory.store_pointer (dm := LP64) ∅ 4112 0) 4104 4112) 4104 2)
  /\ Pool.holds (dm := LP64)
       (Pool.mk
          (Memory.store_pointer (dm := LP64)
             (Memory.store_pointer (dm := LP64) ∅ 4112 0) 4104 4112) 4104 2)
       [4104; 4112]
  /\ 4104 mod 12 = 0
  /\ 4112 mod 12 <> 0
  /\ exists p',
       Pool.FetchAligned (dm := LP64) 3 12
         (Pool.mk
            (Memory.store_pointer (dm := LP64)
               (Memory.store_pointer (dm := LP64) ∅ 4112 0) 4104 4112) 4104 2)
       = Ok (4112, p').
Proof.
  split; [by vm_compute|]. split.
  { split; [|reflexivity|reflexivity|reflexivity|simpl; lia].
    simpl. repeat split; [lia|]. exists 4112. split; [by vm_compute|].
    repeat split; [lia|]. exists 0. split; [by vm_compute|reflexivity]. }
  split; [reflexivity|]. split; [by vm_compute|].
  eexists. vm_compute. reflexivity.
Qed.







(** ** Mailbox *)

Lemma Mailbox_count_zero_iff_empty (mb : Mailbox.t) :
  Mailbox.count_is_size mb -> Mailbox.count_zero_iff_empty mb.
Proof.
  unfold Mailbox.count_is_size, Mailbox.count_zero_iff_empty, Mailbox.Empty.
  intros ->. destruct (Mailbox.mQueue mb); simpl; split; (done || lia).
Qed.

Lemma Mailbox_new_count_is_size : Mailbox.count_is_size Mailbox.new.
Proof. reflexivity. Qed.

(** Push appends the message and adds one to the count, as long as the
    count is below the largest [uint32_t]. *)
Lemma Mailbox_Push_count_is_size (message : Z) (mb : Mailbox.t) :
  Mailbox.count_is_size mb ->
  Mailbox.mMessageCount mb < UINT32_MODULUS - 1 ->
  Mailbox.mQueue (Mailbox.Push message mb) = Mailbox.mQueue mb ++ [message]
  /\ Mailbox.mMessageCount (Mailbox.Push message mb) = Mailbox.mMessageCount mb + 1
  /\ Mailbox.count_is_size (Mailbox.Push message mb).
Proof.
  unfold Mailbox.count_is_size, UINT32_MODULUS. intros Hn Hlt. simpl.
  unfold Queue.Push. rewrite wrap32_small by (unfold UINT32_MODULUS; lia).
  rewrite length_app. simpl. repeat split; lia.
Qed.

(** Pop on a mailbox that is not empty removes and returns the head and
    takes one from the count. *)
Lemma Mailbox_Pop_count_is_size (mb : Mailbox.t) (message : Z) (q : Queue.t) :
  Mailbox.count_is_size mb ->
  Mailbox.mMessageCount mb < UINT32_MODULUS ->
  Mailbox.mQueue mb = message :: q ->
  fst (Mailbox.Pop mb) = message
  /\ Mailbox.mQueue (snd (Mailbox.Pop mb)) = q
  /\ Mailbox.mMessageCount (snd (Mailbox.Pop mb)) = Mailbox.mMessageCount mb - 1
  /\ Mailbox.count_is_size (snd (Mailbox.Pop mb)).
Proof.
  unfold Mailbox.count_is_size, Mailbox.Pop, UINT32_MODULUS.
  intros Hn Hlt Hq. rewrite Hq in *. simpl in *.
  rewrite wrap32_small by (unfold UINT32_MODULUS; lia). repeat split; lia.
Qed.

(** C1: the invariant [count == 0 ⇔ queue.empty()] does not hold after
    every operation. A mailbox as constructed is empty with count 0; Pop on
    it returns null and leaves the queue empty, as the claim says, but the
    decrement of [mMessageCount] is not guarded and wraps the count to
    4294967295, so the mailbox that results is empty with a count that is
    not 0. *)
Theorem Mailbox_Pop_empty_wraps_count :
  Mailbox.count_zero_iff_empty Mailbox.new
  /\ Mailbox.Empty Mailbox.new = true
  /\ fst (Mailbox.Pop Mailbox.new) = 0
  /\ Mailbox.Empty (snd (Mailbox.Pop Mailbox.new)) = true
  /\ Mailbox.Count (snd (Mailbox.Pop Mailbox.new)) = 4294967295
  /\ ~ Mailbox.count_zero_iff_empty (snd (Mailbox.Pop Mailbox.new)).
Proof.
  split; [by apply Mailbox_count_zero_iff_empty|].
  do 4 (split; [reflexivity|]).
  unfold Mailbox.count_zero_iff_empty. intros [_ H].
  specialize (H eq_refl). discriminate H.
Qed.

Lemma Mailbox_push_all_queue (messages : list Z) :
  forall mb : Mailbox.t,
    Mailbox.mQueue (Mailbox.push_all messages mb) = Mailbox.mQueue mb ++ messages.
Proof.
  induction messages as [|m messages IH]; intros mb; simpl.
  - by rewrite app_nil_r.
  - unfold Mailbox.push_all in *. simpl. rewrite IH. simpl. unfold Queue.Push.
    by rewrite <- app_assoc.
Qed.

Lemma Mailbox_pop_n_queue (n : nat) :
  forall mb : Mailbox.t,
    (n <= length (Mailbox.mQueue mb))%nat ->
    fst (Mailbox.pop_n n mb) = take n (Mailbox.mQueue mb)
    /\ Mailbox.mQueue (snd (Mailbox.pop_n n mb)) = drop n (Mailbox.mQueue mb).
Proof.
  induction n as [|n IH]; intros mb Hn; simpl.
  - by rewrite drop_0.
  - unfold Mailbox.Pop. destruct (Mailbox.mQueue mb) as [|m q] eqn:Hq;
      [simpl in Hn; lia|].
    simpl.
    match goal with |- context [Mailbox.pop_n n ?mb1] =>
      specialize (IH mb1); destruct (Mailbox.pop_n n mb1) as [rest mb2] end.
    simpl in *. destruct IH as [-> ->]; [lia|]. done.
Qed.

Lemma Mailbox_run_order (ops : list Mailbox.Op) :
  forall mb : Mailbox.t,
    Mailbox.mQueue mb ++ Mailbox.pushed ops
    = fst (Mailbox.run ops mb) ++ Mailbox.mQueue (snd (Mailbox.run ops mb)).
Proof.
  induction ops as [|[m|] ops IH]; intros mb; simpl.
  - by rewrite app_nil_r.
  - rewrite <- IH. simpl. unfold Queue.Push. by rewrite <- app_assoc.
  - unfold Mailbox.Pop, Mailbox.Empty.
    destruct (Mailbox.mQueue mb) as [|m q] eqn:Hq; simpl.
    + match goal with |- context [Mailbox.run ops ?mb1] =>
        specialize (IH mb1); destruct (Mailbox.run ops mb1) as [out mb2] end.
      simpl in *. done.
    + match goal with |- context [Mailbox.run ops ?mb1] =>
        specialize (IH mb1); destruct (Mailbox.run ops mb1) as [out mb2] end.
      simpl in *. by rewrite IH.
Qed.

(** C7: the mailbox is first in, first out. After the messages [messages]
    are pushed into a mailbox, as many calls of Pop as it then holds
    messages return the messages it held before followed by [messages], each
    in the order of the pushes, and leave it empty. More generally, for
    any interleaving of pushes and pops, the messages taken out followed by
    the messages left in the queue are the messages held at the start
    followed by the pushed ones, in push order. *)
Theorem Mailbox_first_in_first_out (mb : Mailbox.t) :
  (forall messages : list Z,
      let n := length (Mailbox.mQueue mb ++ messages) in
      fst (Mailbox.pop_n n (Mailbox.push_all messages mb))
      = Mailbox.mQueue mb ++ messages
      /\ Mailbox.Empty (snd (Mailbox.pop_n n (Mailbox.push_all messages mb))) = true)
  /\ (forall ops : list Mailbox.Op,
         Mailbox.mQueue mb ++ Mailbox.pushed ops
         = fst (Mailbox.run ops mb) ++ Mailbox.mQueue (snd (Mailbox.run ops mb))).
Proof.
  split; [|intros ops; apply Mailbox_run_order].
  intros messages n.
  destruct (Mailbox_pop_n_queue n (Mailbox.push_all messages mb)) as [H1 H2].
  { rewrite Mailbox_push_all_queue. done. }
  rewrite Mailbox_push_all_queue in H1, H2. subst n.
  rewrite firstn_all in H1. rewrite drop_all in H2. split; [done|].
  unfold Mailbox.Empty. by rewrite H2.
Qed.

(** C9: on a mailbox with pin count zero and no actor bound, RegisterActor
    with a non-null actor sets the actor field to that actor and leaves the
    name, the queue, the message count and the pin count as they were; on a
    mailbox with pin count zero and an actor bound, DeregisterActor sets
    the actor field to null and leaves the other fields as they were. *)
Theorem Mailbox_RegisterActor_DeregisterActor_frame
    (mb1 mb2 : Mailbox.t) (actor : Z) :
  Mailbox.mPinCount mb1 = 0 ->
  Mailbox.mActor mb1 = 0 ->
  actor <> 0 ->
  Mailbox.mPinCount mb2 = 0 ->
  Mailbox.mActor mb2 <> 0 ->
  (exists mb1',
      Mailbox.RegisterActor actor mb1 = Ok mb1'
      /\ Mailbox.mActor mb1' = actor
      /\ Mailbox.mName mb1' = Mailbox.mName mb1
      /\ Mailbox.mQueue mb1' = Mailbox.mQueue mb1
      /\ Mailbox.mMessageCount mb1' = Mailbox.mMessageCount mb1
      /\ Mailbox.mPinCount mb1' = Mailbox.mPinCount mb1)
  /\ (exists mb2',
         Mailbox.DeregisterActor mb2 = Ok mb2'
         /\ Mailbox.mActor mb2' = 0
         /\ Mailbox.mName mb2' = Mailbox.mName mb2
         /\ Mailbox.mQueue mb2' = Mailbox.mQueue mb2
         /\ Mailbox.mMessageCount mb2' = Mailbox.mMessageCount mb2
         /\ Mailbox.mPinCount mb2' = Mailbox.mPinCount mb2).
Proof.
  intros Hpin1 Hact1 Hactor Hpin2 Hact2. split.
  - exists (Mailbox.set_mActor actor mb1). unfold Mailbox.RegisterActor.
    rewrite Hpin1, Hact1. simpl.
    rewrite THERON_ASSERT_true by (by apply negb_true_iff, Z.eqb_neq). done.
  - exists (Mailbox.set_mActor 0 mb2). unfold Mailbox.DeregisterActor.
    rewrite Hpin2. simpl.
    rewrite THERON_ASSERT_true by (by apply negb_true_iff, Z.eqb_neq). done.
Qed.

Lemma Mailbox_RegisterActor_DeregisterActor_frame_witness :
  Mailbox.mPinCount Mailbox.new = 0
  /\ Mailbox.mActor Mailbox.new = 0
  /\ 4096 <> 0
  /\ Mailbox.mPinCount (Mailbox.set_mActor 4096 (Mailbox.Push 8192 Mailbox.new)) = 0
  /\ Mailbox.mActor (Mailbox.set_mActor 4096 (Mailbox.Push 8192 Mailbox.new)) <> 0
  /\ Mailbox.RegisterActor 4096 Mailbox.new = Ok (Mailbox.set_mActor 4096 Mailbox.new)
  /\ exists mb2',
       Mailbox.DeregisterActor (Mailbox.set_mActor 4096 (Mailbox.Push 8192 Mailbox.new))
       = Ok mb2'
       /\ Mailbox.mActor mb2' = 0
       /\ Mailbox.mQueue mb2' = [8192]
       /\ Mailbox.mMessageCount mb2' = 1.
Proof.
  split; [reflexivity|]. split; [reflexivity|]. split; [lia|].
  split; [reflexivity|]. split; [simpl; lia|].
  destruct (Mailbox_RegisterActor_DeregisterActor_frame Mailbox.new
              (Mailbox.set_mActor 4096 (Mailbox.Push 8192 Mailbox.new)) 4096)
    as [_ (mb2' & H1 & H2 & _ & H3 & H4 & _)];
    [reflexivity|reflexivity|lia|reflexivity|simpl; lia|].
  split; [reflexivity|]. exists mb2'. by repeat split.
Defined.

(** ** Framework *)

(** C8: a [Parameters] record constructed with no argument has thread
    count 16, node mask 0x1, processor mask 0xFFFFFFFF and the yield
    strategy POLITE. *)
Theorem Framework_Parameters_defaults :
  Framework.mThreadCount Framework.Parameters_default = 16
  /\ Framework.mNodeMask Framework.Parameters_default = 0x1
  /\ Framework.mProcessorMask Framework.Parameters_default = 0xFFFFFFFF
  /\ Framework.mYieldStrategy Framework.Parameters_default
     = Framework.YIELD_STRATEGY_POLITE.
Proof. repeat split. Qed.

(** An argument that is given replaces its default and no other. *)
Lemma Framework_Parameters_threadCount (threadCount : Z) :
  Framework.Parameters_ctor (Some threadCount) None None None
  = Framework.mkParameters threadCount 0x1 0xFFFFFFFF
      Framework.YIELD_STRATEGY_POLITE.
Proof. reflexivity. Qed.

(** C2: when the allocation of the message returns null, Send returns false
    and the framework is left as it was but for what the failed allocation
    did to the message allocator: the mailboxes, the work queue, the record
    of fallback handler runs, the end point and the index are unchanged,
    whatever the message sender would have done. *)
Theorem Framework_Send_allocation_failure `{C : Framework.Collaborators}
    (value : Framework.ValueType) (from address : Framework.Address)
    (fw : Framework.t) :
  fst (Framework.MessageCreator_Create
         (Framework.mMessageAllocator (Framework.mProcessorContext fw)) value from)
  = 0 ->
  fst (Framework.Send value from address fw) = false
  /\ Framework.mMailboxes
       (Framework.mProcessorContext (snd (Framework.Send value from address fw)))
     = Framework.mMailboxes (Framework.mProcessorContext fw)
  /\ Framework.mWorkQueue
       (Framework.mProcessorContext (snd (Framework.Send value from address fw)))
     = Framework.mWorkQueue (Framework.mProcessorContext fw)
  /\ Framework.mFallbackHandled
       (Framework.mProcessorContext (snd (Framework.Send value from address fw)))
     = Framework.mFallbackHandled (Framework.mProcessorContext fw)
  /\ Framework.mEndPoint (snd (Framework.Send value from address fw))
     = Framework.mEndPoint fw
  /\ Framework.mIndex (snd (Framework.Send value from address fw))
     = Framework.mIndex fw
  /\ Framework.mMessageAllocator
       (Framework.mProcessorContext (snd (Framework.Send value from address fw)))
     = snd (Framework.MessageCreator_Create
              (Framework.mMessageAllocator (Framework.mProcessorContext fw))
              value from).
Proof.
  unfold Framework.Send.
  destruct (Framework.MessageCreator_Create _ value from) as [message allocator].
  simpl. intros ->. simpl. repeat split.
Qed.

Lemma Framework_Send_allocation_failure_witness :
  fst (Framework.MessageCreator_Create
         (Framework.mMessageAllocator
            (Framework.mProcessorContext Framework.exhausted_framework))
         (42 : @Framework.ValueType Framework.exhausted_collaborators)
         (3 : @Framework.Address Framework.exhausted_collaborators))
  = 0
  /\ fst (Framework.Send (C := Framework.exhausted_collaborators) 42 3 7
            Framework.exhausted_framework) = false
  /\ Framework.mMailboxes
       (Framework.mProcessorContext
          (snd (Framework.Send (C := Framework.exhausted_collaborators) 42 3 7
                  Framework.exhausted_framework)))
     = {[7 := Mailbox.new]}
  /\ Framework.mFallbackHandled
       (Framework.mProcessorContext
          (snd (Framework.Send (C := Framework.exhausted_collaborators) 42 3 7
                  Framework.exhausted_framework)))
     = [].
Proof.
  split; [reflexivity|].
  destruct (Framework_Send_allocation_failure (C := Framework.exhausted_collaborators)
              42 3 7 Framework.exhausted_framework)
    as (H1 & H2 & _ & H3 & _); [reflexivity|].
  split; [exact H1|]. split; [exact H2|exact H3].
Defined.

(** When the allocation succeeds, what Send returns and what it does to the
    framework are what [MessageSender::Send] returns and does: [Send] adds
    nothing of its own after the allocation. *)
Lemma Framework_Send_delegates `{C : Framework.Collaborators}
    (value : Framework.ValueType) (from address : Framework.Address)
    (fw : Framework.t) (message : Z) (allocator : Framework.Allocator) :
  Framework.MessageCreator_Create
    (Framework.mMessageAllocator (Framework.mProcessorContext fw)) value from
  = (message, allocator) ->
  message <> 0 ->
  let sent :=
    Framework.MessageSender_Send (Framework.mEndPoint fw)
      (Framework.set_mMessageAllocator allocator (Framework.mProcessorContext fw))
      (Framework.mIndex fw) message address in
  Framework.Send value from address fw
  = (fst sent,
     Framework.mk (Framework.mEndPoint fw) (Framework.mIndex fw) (snd sent)).
Proof.
  intros Hcreate Hmessage sent. unfold Framework.Send. rewrite Hcreate.
  rewrite (proj2 (Z.eqb_neq _ _) Hmessage). subst sent.
  by destruct (Framework.MessageSender_Send _ _ _ message address).
Qed.

(** * Further properties *)

(** ** Pool: the values returned *)




Lemma holds_nonzero `{dm : DataModel} (p : Pool.t) (l : list Z) :
  Pool.holds p l -> 0 ∉ l.
Proof.
  intros [_ _ Hbl _ _] H0. rewrite forallb_elem_of in Hbl.
  by apply Hbl, is_block_spec in H0 as [? _].
Qed.

















(** ** Pool: alignments *)

Lemma spec_fetch_aligned_some (align : Z) (l : list Z) (b : Z) :
  fst (Pool.spec_fetch_aligned align l) = Some b ->
  b ∈ l /\ Pool.THERON_ALIGNED b align = true.
Proof.
  induction l as [|x l IH]; simpl; [done|].
  destruct (Pool.THERON_ALIGNED x align) eqn:Hx; simpl.
  - intros [= ->]. split; [by left|done].
  - destruct (Pool.spec_fetch_aligned align l) as [r l']. simpl in *.
    intros Hr. destruct (IH Hr) as [Hin Hal]. split; [by right|done].
Qed.

Lemma spec_fetch_aligned_none_all (align : Z) (l : list Z) :
  fst (Pool.spec_fetch_aligned align l) = None ->
  forall b, b ∈ l -> Pool.THERON_ALIGNED b align = false.
Proof.
  induction l as [|x l IH]; simpl; intros Hr b Hb.
  - by apply elem_of_nil in Hb.
  - destruct (Pool.THERON_ALIGNED x align) eqn:Hx; [done|].
    destruct (Pool.spec_fetch_aligned align l) as [r l']. simpl in *.
    apply elem_of_cons in Hb as [->|Hb]; [done|]. by apply IH.
Qed.

Lemma THERON_ALIGNED_zero (node : Z) :
  Pool.THERON_ALIGNED node 0 = true <-> node mod 2 ^ 32 = 0.
Proof.
  unfold Pool.THERON_ALIGNED, Pool.aligned_under_mask, Pool.mask_of.
  change (wrap32 (0 - 1)) with (Z.ones 32).
  rewrite Z.land_ones by lia. apply Z.eqb_eq.
Qed.

(** X5: with an alignment that is a power of two below [2^32], the pointer
    FetchAligned returns from a pool is either a block the pool held whose
    address is a multiple of the alignment, or null, and it is null only
    when no block held has such an address. *)
Theorem Pool_FetchAligned_power_of_two `{dm : DataModel} (fuel : nat) (k : Z)
    (p : Pool.t) (l : list Z) :
  Pool.holds p l ->
  (length l < fuel)%nat ->
  0 <= k < 32 ->
  exists (ptr : Z) (p' : Pool.t),
    Pool.FetchAligned fuel (2 ^ k) p = Ok (ptr, p')
    /\ (ptr <> 0 -> ptr ∈ l /\ ptr mod 2 ^ k = 0)
    /\ (ptr = 0 -> forall b, b ∈ l -> b mod 2 ^ k <> 0).
Proof.
  intros Hp Hfuel Hk.
  destruct (FetchAligned_holds fuel (2 ^ k) p l Hp Hfuel)
    as (ptr & p' & Hrun & Hptr & _ & _).
  exists ptr, p'. split; [done|]. unfold Pool.block_of_pointer in Hptr.
  destruct (Z.eqb_spec ptr 0) as [->|Hne].
  - split; [done|]. intros _ b Hb Hmod.
    apply (THERON_ALIGNED_power_of_two b k Hk) in Hmod.
    by rewrite (spec_fetch_aligned_none_all (2 ^ k) l (eq_sym Hptr) b Hb) in Hmod.
  - split; [|done]. intros _.
    destruct (spec_fetch_aligned_some (2 ^ k) l ptr (eq_sym Hptr)) as [Hin Hal].
    split; [done|]. by apply (THERON_ALIGNED_power_of_two ptr k Hk).
Qed.

Lemma Pool_FetchAligned_power_of_two_witness :
  Pool.holds (dm := LP64) Pool.example_pool [4104; 4096]
  /\ (length [4104%Z; 4096%Z] < 3)%nat
  /\ 0 <= 4 < 32
  /\ exists (ptr : Z) (p' : Pool.t),
       Pool.FetchAligned (dm := LP64) 3 (2 ^ 4) Pool.example_pool = Ok (ptr, p')
       /\ (ptr <> 0 -> ptr ∈ [4104; 4096] /\ ptr mod 2 ^ 4 = 0).
Proof.
  split; [exact example_pool_holds|]. split; [simpl; lia|]. split; [lia|].
  destruct (Pool_FetchAligned_power_of_two (dm := LP64) 3 4 _ _ example_pool_holds)
    as (ptr & p' & H1 & H2 & _); [simpl; lia|lia|].
  by exists ptr, p'.
Defined.

(** X6: an alignment of 1 asks for nothing. On any pool, FetchAligned(1)
    does what Fetch does: same pointer returned, same pool afterwards. *)
Theorem Pool_FetchAligned_1_is_Fetch `{dm : DataModel} (fuel : nat) (p : Pool.t) :
  (0 < fuel)%nat ->
  Pool.FetchAligned fuel 1 p = Pool.Fetch p.
Proof.
  intros Hfuel. destruct fuel as [|fuel]; [lia|].
  unfold Pool.FetchAligned, Pool.Fetch. simpl.
  destruct (Pool.mHead_mNext p =? 0); simpl; [done|].
  destruct (Pool.get_mNext (Pool.mHead_mNext p) p); simpl; try done.
  unfold Pool.aligned_under_mask, Pool.mask_of.
  change (wrap32 (1 - 1)) with 0. by rewrite Z.land_0_r.
Qed.

Lemma Pool_FetchAligned_1_is_Fetch_witness :
  (0 < 1)%nat
  /\ Pool.FetchAligned (dm := LP64) 1 1 Pool.example_pool
     = Pool.Fetch (dm := LP64) Pool.example_pool.
Proof.
  split; [lia|]. apply (Pool_FetchAligned_1_is_Fetch (dm := LP64) 1). lia.
Defined.

(** X7: an alignment of 0 is not "any alignment". The mask [alignment - 1]
    wraps to 0xFFFFFFFF, so only an address that is a multiple of [2^32]
    passes; from a pool whose blocks all lie below [2^32], FetchAligned(0)
    returns null and leaves the pool as it is. *)
Theorem Pool_FetchAligned_0_finds_nothing `{dm : DataModel} (fuel : nat)
    (p : Pool.t) (l : list Z) :
  Pool.holds p l ->
  (length l < fuel)%nat ->
  (forall b, b ∈ l -> 0 <= b < 2 ^ 32) ->
  Pool.FetchAligned fuel 0 p = Ok (0, p).
Proof.
  intros Hp Hfuel Hlow.
  destruct (FetchAligned_holds fuel 0 p l Hp Hfuel) as (ptr & p' & Hrun & Hptr & _ & Hsame).
  assert (fst (Pool.spec_fetch_aligned 0 l) = None) as Hnone.
  { rewrite spec_fetch_aligned_not_found; [done|].
    apply Forall_forall. intros b Hb. apply not_true_is_false.
    rewrite THERON_ALIGNED_zero. rewrite Z.mod_small by (by apply Hlow).
    intros ->. by apply (holds_nonzero p l Hp). }
  rewrite Hnone in Hptr. unfold Pool.block_of_pointer in Hptr.
  destruct (Z.eqb_spec ptr 0) as [->|]; [|done].
  by rewrite (Hsame Hnone) in Hrun.
Qed.

Lemma Pool_FetchAligned_0_finds_nothing_witness :
  Pool.holds (dm := LP64) Pool.example_pool [4104; 4096]
  /\ (length [4104%Z; 4096%Z] < 3)%nat
  /\ (forall b, b ∈ [4104; 4096] -> 0 <= b < 2 ^ 32)
  /\ Pool.FetchAligned (dm := LP64) 3 0 Pool.example_pool
     = Ok (0, Pool.example_pool).
Proof.
  assert (forall b : Z, b ∈ [4104; 4096] -> 0 <= b < 2 ^ 32) as Hlow.
  { intros b Hb. apply elem_of_cons in Hb as [->|Hb]; [lia|].
    apply list_elem_of_singleton in Hb as ->. lia. }
  split; [exact example_pool_holds|]. split; [simpl; lia|]. split; [exact Hlow|].
  apply (Pool_FetchAligned_0_finds_nothing (dm := LP64) 3 _ _ example_pool_holds);
    [simpl; lia|exact Hlow].
Defined.

(** ** Mailbox: sequences of calls *)

Lemma Mailbox_pins_nonneg (cs : list Mailbox.Call) : 0 <= Mailbox.pins cs.
Proof. induction cs as [|[] cs IH]; simpl; lia. Qed.

Lemma Mailbox_pushes_nonneg (cs : list Mailbox.Call) : 0 <= Mailbox.pushes cs.
Proof. induction cs as [|[] cs IH]; simpl; lia. Qed.

(** X8: the count is the size of the queue as long as Pop is not called on
    an empty mailbox. Starting from a mailbox whose count is its queue
    size, after any calls that all return, of which every Pop finds a
    message and whose pushes keep the queue below [2^32] messages, the
    count is again the queue size, it is the old count plus the pushes
    minus the pops, and it is 0 exactly when the mailbox is empty. *)
Theorem Mailbox_count_is_queue_size (cs : list Mailbox.Call) :
  forall mb mb' : Mailbox.t,
    Mailbox.count_is_size mb ->
    Mailbox.mMessageCount mb + Mailbox.pushes cs < UINT32_MODULUS ->
    Mailbox.pops_when_not_empty cs mb = true ->
    Mailbox.calls cs mb = Ok mb' ->
    Mailbox.count_is_size mb'
    /\ Mailbox.Count mb' = Mailbox.Count mb + Mailbox.pushes cs - Mailbox.pops cs
    /\ Mailbox.count_zero_iff_empty mb'.
Proof.
  induction cs as [|c cs IH]; intros mb mb' Hsize Hbound Hpops Hcalls.
  - simpl in *. injection Hcalls as <-. split; [done|]. split; [lia|].
    by apply Mailbox_count_zero_iff_empty.
  - simpl in Hcalls, Hpops. apply andb_true_iff in Hpops as [Hpop Hrest].
    destruct (Mailbox.call c mb) as [mb1| | |] eqn:Hcall; try discriminate Hcalls.
    simpl in Hcalls. pose proof (Mailbox_pushes_nonneg cs) as Hnn.
    unfold Mailbox.Count in *.
    assert (Mailbox.count_is_size mb1
            /\ Mailbox.mMessageCount mb1 + Mailbox.pushes cs < UINT32_MODULUS
            /\ Mailbox.mMessageCount mb1 + Mailbox.pushes cs - Mailbox.pops cs
               = Mailbox.mMessageCount mb + Mailbox.pushes (c :: cs)
                 - Mailbox.pops (c :: cs)) as (Hsize1 & Hbound1 & Heq).
    { unfold Mailbox.count_is_size in *.
      destruct c as [name|message| |actor| | |]; simpl in *.
      - injection Hcall as <-. simpl. lia.
      - injection Hcall as <-.
        destruct (Mailbox_Push_count_is_size message mb Hsize) as (Hq & Hc & Hs);
          [lia|].
        unfold Mailbox.count_is_size in Hs. rewrite Hc in *. lia.
      - injection Hcall as <-. unfold Mailbox.Empty in Hpop.
        destruct (Mailbox.mQueue mb) as [|message q] eqn:Hq; [discriminate Hpop|].
        destruct (Mailbox_Pop_count_is_size mb message q) as (_ & _ & Hc & Hs);
          [by unfold Mailbox.count_is_size; rewrite Hq|lia|done|].
        unfold Mailbox.count_is_size in Hs. rewrite Hc in *. lia.
      - unfold Mailbox.RegisterActor in Hcall.
        destruct (Mailbox.mPinCount mb =? 0); [|discriminate Hcall].
        destruct (Mailbox.mActor mb =? 0); [|discriminate Hcall].
        destruct (negb (actor =? 0)); [|discriminate Hcall].
        injection Hcall as <-. simpl. lia.
      - unfold Mailbox.DeregisterActor in Hcall.
        destruct (Mailbox.mPinCount mb =? 0); [|discriminate Hcall].
        destruct (negb (Mailbox.mActor mb =? 0)); [|discriminate Hcall].
        injection Hcall as <-. simpl. lia.
      - injection Hcall as <-. simpl. lia.
      - unfold Mailbox.Unpin in Hcall.
        destruct (0 <? Mailbox.mPinCount mb); [|discriminate Hcall].
        injection Hcall as <-. simpl. lia. }
    destruct (IH mb1 mb' Hsize1 Hbound1 Hrest Hcalls) as (H1 & H2 & H3).
    split; [done|]. split; [lia|done].
Qed.

Lemma Mailbox_count_is_queue_size_witness :
  Mailbox.count_is_size Mailbox.new
  /\ Mailbox.mMessageCount Mailbox.new
     + Mailbox.pushes [Mailbox.CallPush 4096; Mailbox.CallPin; Mailbox.CallPush 8192;
                       Mailbox.CallPop; Mailbox.CallUnpin] < UINT32_MODULUS
  /\ Mailbox.pops_when_not_empty
       [Mailbox.CallPush 4096; Mailbox.CallPin; Mailbox.CallPush 8192;
        Mailbox.CallPop; Mailbox.CallUnpin] Mailbox.new = true
  /\ Mailbox.calls
       [Mailbox.CallPush 4096; Mailbox.CallPin; Mailbox.CallPush 8192;
        Mailbox.CallPop; Mailbox.CallUnpin] Mailbox.new
     = Ok (Mailbox.mk EmptyString [8192] 1 0 0)
  /\ Mailbox.count_is_size (Mailbox.mk EmptyString [8192] 1 0 0)
  /\ Mailbox.count_zero_iff_empty (Mailbox.mk EmptyString [8192] 1 0 0).
Proof.
  split; [reflexivity|]. split; [reflexivity|]. split; [reflexivity|].
  split; [reflexivity|].
  destruct (Mailbox_count_is_queue_size
              [Mailbox.CallPush 4096; Mailbox.CallPin; Mailbox.CallPush 8192;
               Mailbox.CallPop; Mailbox.CallUnpin]
              Mailbox.new (Mailbox.mk EmptyString [8192] 1 0 0))
    as (H1 & _ & H2); [reflexivity|reflexivity|reflexivity|reflexivity|].
  split; [exact H1|exact H2].
Defined.

(** What a call that returns leaves alone. *)
Lemma Mailbox_call_pin_count (c : Mailbox.Call) (mb mb' : Mailbox.t) :
  Mailbox.call c mb = Ok mb' ->
  match c with
  | Mailbox.CallPin => Mailbox.mPinCount mb' = wrap32 (Mailbox.mPinCount mb + 1)
  | Mailbox.CallUnpin =>
      0 < Mailbox.mPinCount mb
      /\ Mailbox.mPinCount mb' = wrap32 (Mailbox.mPinCount mb - 1)
  | _ => Mailbox.mPinCount mb' = Mailbox.mPinCount mb
  end.
Proof.
  destruct c as [name|message| |actor| | |]; simpl; intros Hcall.
  - by injection Hcall as <-.
  - by injection Hcall as <-.
  - injection Hcall as <-. unfold Mailbox.Pop.
    by destruct (Queue.Pop (Mailbox.mQueue mb)).
  - unfold Mailbox.RegisterActor in Hcall.
    destruct (Mailbox.mPinCount mb =? 0); [|discriminate Hcall].
    destruct (Mailbox.mActor mb =? 0); [|discriminate Hcall].
    destruct (negb (actor =? 0)); [|discriminate Hcall].
    by injection Hcall as <-.
  - unfold Mailbox.DeregisterActor in Hcall.
    destruct (Mailbox.mPinCount mb =? 0); [|discriminate Hcall].
    destruct (negb (Mailbox.mActor mb =? 0)); [|discriminate Hcall].
    by injection Hcall as <-.
  - by injection Hcall as <-.
  - unfold Mailbox.Unpin in Hcall.
    destruct (Z.ltb_spec 0 (Mailbox.mPinCount mb)); [|discriminate Hcall].
    by injection Hcall as <-.
Qed.

(** X9: IsPinned tells whether the mailbox has been pinned more often than
    unpinned. After any calls that all return, starting with a pin count
    that the pins among them keep below [2^32], the pin count is the old
    one plus the pins minus the unpins, and IsPinned returns true exactly
    when that is positive. *)
Theorem Mailbox_IsPinned_counts_pins (cs : list Mailbox.Call) :
  forall mb mb' : Mailbox.t,
    0 <= Mailbox.mPinCount mb ->
    Mailbox.mPinCount mb + Mailbox.pins cs < UINT32_MODULUS ->
    Mailbox.calls cs mb = Ok mb' ->
    Mailbox.mPinCount mb'
    = Mailbox.mPinCount mb + Mailbox.pins cs - Mailbox.unpins cs
    /\ (Mailbox.IsPinned mb' = true
        <-> Mailbox.unpins cs < Mailbox.mPinCount mb + Mailbox.pins cs).
Proof.
  induction cs as [|c cs IH]; intros mb mb' Hnn Hbound Hcalls.
  - simpl in *. injection Hcalls as <-. split; [lia|].
    unfold Mailbox.IsPinned. rewrite Z.ltb_lt. lia.
  - simpl in Hcalls.
    destruct (Mailbox.call c mb) as [mb1| | |] eqn:Hcall; try discriminate Hcalls.
    simpl in Hcalls. pose proof (Mailbox_pins_nonneg cs) as Hpins.
    pose proof (Mailbox_call_pin_count c mb mb1 Hcall) as Hstep.
    unfold UINT32_MODULUS in *.
    assert (0 <= Mailbox.mPinCount mb1
            /\ Mailbox.mPinCount mb1 + Mailbox.pins cs < 2 ^ 32
            /\ Mailbox.mPinCount mb1 + Mailbox.pins cs - Mailbox.unpins cs
               = Mailbox.mPinCount mb + Mailbox.pins (c :: cs)
                 - Mailbox.unpins (c :: cs)) as (Hnn1 & Hbound1 & Heq).
    { destruct c; simpl in *; try lia.
      - rewrite wrap32_small in Hstep by (unfold UINT32_MODULUS; lia). lia.
      - destruct Hstep as [Hpos Hstep].
        rewrite wrap32_small in Hstep by (unfold UINT32_MODULUS; lia). lia. }
    destruct (IH mb1 mb' Hnn1 Hbound1 Hcalls) as [H1 H2].
    split; [lia|]. rewrite H2. lia.
Qed.

Lemma Mailbox_IsPinned_counts_pins_witness :
  0 <= Mailbox.mPinCount Mailbox.new
  /\ Mailbox.mPinCount Mailbox.new
     + Mailbox.pins [Mailbox.CallPin; Mailbox.CallPin; Mailbox.CallUnpin]
     < UINT32_MODULUS
  /\ Mailbox.calls [Mailbox.CallPin; Mailbox.CallPin; Mailbox.CallUnpin] Mailbox.new
     = Ok (Mailbox.mk EmptyString [] 0 0 1)
  /\ Mailbox.mPinCount (Mailbox.mk EmptyString [] 0 0 1) = 0 + 2 - 1.
Proof.
  split; [simpl; lia|]. split; [reflexivity|]. split; [reflexivity|].
  destruct (Mailbox_IsPinned_counts_pins
              [Mailbox.CallPin; Mailbox.CallPin; Mailbox.CallUnpin]
              Mailbox.new (Mailbox.mk EmptyString [] 0 0 1)) as [H _];
    [simpl; lia|reflexivity|reflexivity|].
  exact H.
Defined.

Lemma Mailbox_call_pinned_actor (c : Mailbox.Call) (mb mb' : Mailbox.t) :
  Mailbox.IsPinned mb = true ->
  Mailbox.call c mb = Ok mb' ->
  Mailbox.mActor mb' = Mailbox.mActor mb.
Proof.
  unfold Mailbox.IsPinned. rewrite Z.ltb_lt. intros Hpin.
  destruct c as [name|message| |actor| | |]; simpl; intros Hcall.
  - by injection Hcall as <-.
  - by injection Hcall as <-.
  - injection Hcall as <-. unfold Mailbox.Pop.
    by destruct (Queue.Pop (Mailbox.mQueue mb)).
  - unfold Mailbox.RegisterActor in Hcall.
    rewrite (proj2 (Z.eqb_neq (Mailbox.mPinCount mb) 0)) in Hcall by lia.
    discriminate Hcall.
  - unfold Mailbox.DeregisterActor in Hcall.
    rewrite (proj2 (Z.eqb_neq (Mailbox.mPinCount mb) 0)) in Hcall by lia.
    discriminate Hcall.
  - by injection Hcall as <-.
  - unfold Mailbox.Unpin in Hcall.
    destruct (0 <? Mailbox.mPinCount mb); [|discriminate Hcall].
    by injection Hcall as <-.
Qed.

(** X10: pinning freezes the actor binding. If the mailbox is pinned at
    the time of each of a sequence of calls and the calls all return, the
    actor registered afterwards is the one registered before: RegisterActor
    and DeregisterActor stop at their assertion on a pinned mailbox, and no
    other member function writes the actor. *)
Theorem Mailbox_pinned_keeps_actor (cs : list Mailbox.Call) :
  forall mb mb' : Mailbox.t,
    Mailbox.pinned_at_each cs mb = true ->
    Mailbox.calls cs mb = Ok mb' ->
    Mailbox.GetActor mb' = Mailbox.GetActor mb.
Proof.
  unfold Mailbox.GetActor.
  induction cs as [|c cs IH]; intros mb mb' Hpinned Hcalls.
  - simpl in Hcalls. by injection Hcalls as <-.
  - simpl in Hcalls, Hpinned. apply andb_true_iff in Hpinned as [Hpin Hrest].
    destruct (Mailbox.call c mb) as [mb1| | |] eqn:Hcall; try discriminate Hcalls.
    simpl in Hcalls. rewrite (IH mb1 mb' Hrest Hcalls).
    by apply (Mailbox_call_pinned_actor c).
Qed.

Lemma Mailbox_pinned_keeps_actor_witness :
  Mailbox.pinned_at_each
    [Mailbox.CallPush 8192; Mailbox.CallPin; Mailbox.CallPop; Mailbox.CallUnpin;
     Mailbox.CallSetName EmptyString]
    (Mailbox.mk EmptyString [] 0 4096 1) = true
  /\ Mailbox.calls
       [Mailbox.CallPush 8192; Mailbox.CallPin; Mailbox.CallPop; Mailbox.CallUnpin;
        Mailbox.CallSetName EmptyString]
       (Mailbox.mk EmptyString [] 0 4096 1)
     = Ok (Mailbox.mk EmptyString [] 0 4096 1)
  /\ Mailbox.GetActor (Mailbox.mk EmptyString [] 0 4096 1) = 4096.
Proof.
  split; [reflexivity|]. split; [reflexivity|].
  apply (Mailbox_pinned_keeps_actor
           [Mailbox.CallPush 8192; Mailbox.CallPin; Mailbox.CallPop;
            Mailbox.CallUnpin; Mailbox.CallSetName EmptyString]
           (Mailbox.mk EmptyString [] 0 4096 1) (Mailbox.mk EmptyString [] 0 4096 1));
    reflexivity.
Defined.

(** X11: a mailbox binds one actor at a time. On a mailbox that is not
    pinned and has no actor, RegisterActor of a non-null actor returns;
    the mailbox then reports that actor, a further RegisterActor stops at
    its assertion whatever the actor, and DeregisterActor gives back the
    mailbox as it was before the registration, on which a further
    DeregisterActor stops at its assertion. *)
Theorem Mailbox_RegisterActor_then_DeregisterActor (mb : Mailbox.t) (actor : Z) :
  Mailbox.mPinCount mb = 0 ->
  Mailbox.mActor mb = 0 ->
  actor <> 0 ->
  exists mb1 : Mailbox.t,
    Mailbox.RegisterActor actor mb = Ok mb1
    /\ Mailbox.GetActor mb1 = actor
    /\ (forall other : Z, Mailbox.RegisterActor other mb1 = AssertionFailure)
    /\ Mailbox.DeregisterActor mb1 = Ok mb
    /\ Mailbox.DeregisterActor mb = AssertionFailure.
Proof.
  intros Hpin Hact Hactor. exists (Mailbox.set_mActor actor mb).
  unfold Mailbox.RegisterActor, Mailbox.DeregisterActor. simpl.
  rewrite Hpin, Hact. simpl.
  rewrite (proj2 (Z.eqb_neq actor 0) Hactor). simpl.
  repeat split. destruct mb as [name q count act pin]. simpl in *.
  by subst.
Qed.

Lemma Mailbox_RegisterActor_then_DeregisterActor_witness :
  Mailbox.mPinCount (Mailbox.Push 8192 Mailbox.new) = 0
  /\ Mailbox.mActor (Mailbox.Push 8192 Mailbox.new) = 0
  /\ 4096 <> 0
  /\ exists mb1 : Mailbox.t,
       Mailbox.RegisterActor 4096 (Mailbox.Push 8192 Mailbox.new) = Ok mb1
       /\ Mailbox.GetActor mb1 = 4096
       /\ Mailbox.DeregisterActor mb1 = Ok (Mailbox.Push 8192 Mailbox.new).
Proof.
  split; [reflexivity|]. split; [reflexivity|]. split; [lia|].
  destruct (Mailbox_RegisterActor_then_DeregisterActor
              (Mailbox.Push 8192 Mailbox.new) 4096)
    as (mb1 & H1 & H2 & _ & H3 & _); [reflexivity|reflexivity|lia|].
  by exists mb1.
Defined.

(** ** Pool: the bytes written *)

Lemma FetchAligned_loop_writes `{dm : DataModel} (fuel : nat) (mask : Z) :
  forall (rest : list Z) (previous : Pool.NodeRef) (node : Z) (p : Pool.t)
         (r : Z * Pool.t),
    Pool.chain (Pool.memory p) node rest 0 ->
    Pool.FetchAligned_loop fuel mask previous node p = Ok r ->
    forall x : Z,
      (forall a, previous = Pool.BlockNode a -> Memory.outside x a) ->
      (forall b, b ∈ rest -> Memory.outside x b) ->
      Pool.memory (snd r) !! x = Pool.memory p !! x.
Proof.
  induction fuel as [|fuel IH]; intros rest previous node p r Hc Hrun x Hprev Hx;
    [discriminate Hrun|].
  simpl in Hrun. destruct (Z.eqb_spec node 0) as [->|Hnode].
  - by injection Hrun as <-.
  - destruct rest as [|b rest]; simpl in Hc; [done|].
    destruct Hc as (-> & Hb & next & Hm & Hc).
    unfold Pool.get_mNext in Hrun. rewrite Hm in Hrun. simpl in Hrun.
    destruct (Pool.aligned_under_mask mask b).
    + injection Hrun as <-. simpl. destruct previous as [|a0]; simpl; [done|].
      apply store_pointer_outside. exact (Hprev a0 eq_refl).
    + apply (IH rest (Pool.BlockNode b) next p r Hc Hrun x).
      * intros a [= <-]. apply Hx. by left.
      * intros b' Hb'. apply Hx. by right.
Qed.

(** X12: the pool writes only into the nodes of blocks it holds or is being
    given. On a pool that holds the blocks [l], an operation that returns
    leaves every byte of memory as it was that lies outside the nodes (the
    pointer at the start) of the blocks of [l] and of the block given to
    Add: Add writes the node of the block it is given, FetchAligned the
    node of a held block, Fetch none. A block that has been handed out is
    not written again unless it is added again. *)
Theorem Pool_writes_only_held_blocks `{dm : DataModel} (fuel : nat) (op : Pool.Op)
    (p p' : Pool.t) (l : list Z) :
  Pool.holds p l ->
  Pool.step fuel op p = Ok p' ->
  forall x : Z,
    (forall b, b ∈ l -> Memory.outside x b) ->
    (forall b, op = Pool.OpAdd b -> Memory.outside x b) ->
    Pool.memory p' !! x = Pool.memory p !! x.
Proof.
  intros Hp Hstep x Hx Hop. destruct op as [b| |align]; simpl in Hstep.
  - unfold Pool.Add in Hstep. destruct (negb (b =? 0)); [|discriminate Hstep].
    simpl in Hstep. destruct (Pool.mBlockCount p <? Pool.MAX_BLOCKS).
    + injection Hstep as <-. simpl. apply store_pointer_outside. exact (Hop b eq_refl).
    + by injection Hstep as <-.
  - unfold Pool.Fetch in Hstep. destruct (negb (Pool.mHead_mNext p =? 0)).
    + destruct (Pool.get_mNext (Pool.mHead_mNext p) p); try discriminate Hstep.
      by injection Hstep as <-.
    + by injection Hstep as <-.
  - unfold Pool.FetchAligned in Hstep.
    destruct (Pool.FetchAligned_loop fuel (Pool.mask_of align) Pool.HeadNode
                (Pool.mHead_mNext p) p) as [r| | |] eqn:Hrun; try discriminate Hstep.
    injection Hstep as <-.
    apply (FetchAligned_loop_writes fuel (Pool.mask_of align) l Pool.HeadNode
             (Pool.mHead_mNext p) p r); [by destruct Hp|done|done|done].
Qed.

Lemma Pool_writes_only_held_blocks_witness :
  Pool.holds (dm := LP64) Pool.example_pool [4104; 4096]
  /\ (exists p' : Pool.t,
        Pool.step (dm := LP64) 3 (Pool.OpFetchAligned 16) Pool.example_pool = Ok p'
        /\ (forall b, b ∈ [4104; 4096] -> Memory.outside (dm := LP64) 4112 b)
        /\ (forall b, Pool.OpFetchAligned 16 = Pool.OpAdd b
                      -> Memory.outside (dm := LP64) 4112 b)
        /\ Pool.memory p' !! 4112 = Pool.memory Pool.example_pool !! 4112
        /\ Pool.memory p' !! 4105 <> Pool.memory Pool.example_pool !! 4105).
Proof.
  split; [exact example_pool_holds|].
  assert (forall b : Z, b ∈ [4104; 4096] -> Memory.outside (dm := LP64) 4112 b) as Hx.
  { intros b Hb. unfold Memory.outside. simpl.
    apply elem_of_cons in Hb as [->|Hb]; [lia|].
    apply list_elem_of_singleton in Hb as ->. lia. }
  assert (forall b : Z, Pool.OpFetchAligned 16 = Pool.OpAdd b
                        -> Memory.outside (dm := LP64) 4112 b) as Hop
    by (intros b Hb; discriminate Hb).
  destruct (Pool.step (dm := LP64) 3 (Pool.OpFetchAligned 16) Pool.example_pool)
    as [p'| | |] eqn:Hstep; try (vm_compute in Hstep; discriminate Hstep).
  exists p'. split; [reflexivity|]. split; [exact Hx|]. split; [exact Hop|]. split.
  - apply (Pool_writes_only_held_blocks (dm := LP64) 3 (Pool.OpFetchAligned 16)
             Pool.example_pool p' [4104; 4096] example_pool_holds Hstep);
      [exact Hx|exact Hop].
  - vm_compute in Hstep. injection Hstep as <-. intros Heq.
    vm_compute in Heq. discriminate Heq.
Defined.

(** ** Framework: Send and FrameworkReceive *)

(** X13: a message sent from this framework and a message received from
    another framework go the same way. When the allocation of the message
    succeeds, Send returns what FrameworkReceive returns for that message
    and address on the framework as the allocation left it, and leaves the
    framework in the same state. *)
Theorem Framework_Send_is_FrameworkReceive `{C : Framework.Collaborators}
    (value : Framework.ValueType) (from address : Framework.Address)
    (fw : Framework.t) (message : Z) (allocator : Framework.Allocator) :
  Framework.MessageCreator_Create
    (Framework.mMessageAllocator (Framework.mProcessorContext fw)) value from
  = (message, allocator) ->
  message <> 0 ->
  Framework.Send value from address fw
  = Framework.FrameworkReceive message address
      (Framework.mk (Framework.mEndPoint fw) (Framework.mIndex fw)
         (Framework.set_mMessageAllocator allocator (Framework.mProcessorContext fw))).
Proof.
  intros Hcreate Hmessage. unfold Framework.Send, Framework.FrameworkReceive.
  rewrite Hcreate. by rewrite (proj2 (Z.eqb_neq _ _) Hmessage).
Qed.

Lemma Framework_Send_is_FrameworkReceive_witness :
  Framework.MessageCreator_Create
    (Framework.mMessageAllocator (Framework.mProcessorContext Framework.bump_framework))
    (42 : @Framework.ValueType Framework.bump_collaborators)
    (3 : @Framework.Address Framework.bump_collaborators)
  = (4096, 4160)
  /\ 4096 <> 0
  /\ fst (Framework.Send (C := Framework.bump_collaborators) 42 3 7
            Framework.bump_framework)
     = fst (Framework.FrameworkReceive (C := Framework.bump_collaborators) 4096 7
              (@Framework.mk Framework.bump_collaborators 0 1
                 (@Framework.set_mMessageAllocator
                    (@Framework.Allocator Framework.bump_collaborators) 4160
                    (Framework.mProcessorContext Framework.bump_framework)))).
Proof.
  split; [reflexivity|]. split; [lia|].
  rewrite (Framework_Send_is_FrameworkReceive (C := Framework.bump_collaborators)
             42 3 7 Framework.bump_framework 4096 4160 eq_refl); [reflexivity|lia].
Defined.
